(** * Acts: GeometryID, boundary-surface construction and the KalmanActor

    A shallow embedding of three pieces of the Acts tracking code:

    - [GeometryID] (GeometryID.h): the packed 64-bit geometry identifier,
      its six (mask, shift) subfields, [operator+=] and [value];
    - [AbstractVolume::createBoundarySurfaces] (AbstractVolume.cpp);
    - [KalmanActor] (KalmanActor.hpp): [initialize], [update] and
      [operator()].

    Pointers are modelled by the address they hold ([nat]), a possibly
    null pointer by [option]; [std::map] is a [gmap], [std::multimap] a
    key-sorted association list, [std::vector] a [list]. *)

From Stdlib Require Import ZArith Lia Bool Ascii.
From stdpp Require Import gmap list sorting strings.

(* ===================================================================== *)
(** ** GeometryID *)
(* ===================================================================== *)

Module GeometryID.
Local Open Scope Z_scope.

(** [typedef uint64_t geo_id_value]: a 64-bit unsigned integer, as a [Z]
    in [0, 2^64) with the wrap-around of unsigned arithmetic written out. *)
Definition geo_id_value := Z.

Definition wrap64 (z : Z) : geo_id_value := z mod 2 ^ 64.

Definition volume_mask     : geo_id_value := 0xff00000000000000.
Definition volume_shift    : geo_id_value := 56.
Definition boundary_mask   : geo_id_value := 0x00ff000000000000.
Definition boundary_shift  : geo_id_value := 48.
Definition layer_mask      : geo_id_value := 0x0000ff0000000000.
Definition layer_shift     : geo_id_value := 40.
Definition approach_mask   : geo_id_value := 0x000000ff00000000.
Definition approach_shift  : geo_id_value := 32.
Definition sensitive_mask  : geo_id_value := 0x00000000ffff0000.
Definition sensitive_shift : geo_id_value := 16.
Definition channel_mask    : geo_id_value := 0x000000000000ffff.
Definition channel_shift   : geo_id_value := 0.

(** The class holds one private member, [m_value]. *)
Record GeometryID := mkGeometryID { m_value : geo_id_value }.

(** The type invariant of [uint64_t]. *)
Definition valid (v : GeometryID) : Prop := 0 <= m_value v < 2 ^ 64.

(** [GeometryID& operator+=(geo_id_value add_value)]:
    [m_value += add_value], an unsigned 64-bit addition. *)
Definition plus_assign (v : GeometryID) (add_value : geo_id_value) : GeometryID :=
  {| m_value := wrap64 (m_value v + add_value) |}.

(** [GeometryID& operator+=(const GeometryID& tddID)]:
    [m_value += tddID.value()]. *)
Definition plus_assign_id (v tddID : GeometryID) : GeometryID :=
  {| m_value := wrap64 (m_value v + m_value tddID) |}.

(** [geo_id_value value(geo_id_value mask = 0, geo_id_value shift = 0)]:
    [if (mask) return ((m_value & mask) >> shift); return m_value;] *)
Definition value (v : GeometryID) (mask shift : geo_id_value) : geo_id_value :=
  if negb (mask =? 0) then Z.shiftr (Z.land (m_value v) mask) shift
  else m_value v.

(** The six subfields that the class defines a (mask, shift) pair for. *)
Inductive Field := Volume | Boundary | Layer | Approach | Sensitive | Channel.

Definition mask_of (f : Field) : geo_id_value :=
  match f with
  | Volume => volume_mask
  | Boundary => boundary_mask
  | Layer => layer_mask
  | Approach => approach_mask
  | Sensitive => sensitive_mask
  | Channel => channel_mask
  end.

Definition shift_of (f : Field) : geo_id_value :=
  match f with
  | Volume => volume_shift
  | Boundary => boundary_shift
  | Layer => layer_shift
  | Approach => approach_shift
  | Sensitive => sensitive_shift
  | Channel => channel_shift
  end.

(** Number of bits of a subfield (read off its mask). *)
Definition width_of (f : Field) : Z :=
  match f with
  | Sensitive | Channel => 16
  | _ => 8
  end.

(** An addend is confined to a field when it has no bit outside its mask. *)
Definition confined (a : geo_id_value) (f : Field) : Prop :=
  Z.land a (mask_of f) = a.

(** Reading field [f1] gives the same before and after [v += a]. *)
Definition field_untouched (v : GeometryID) (f1 : Field) (a : geo_id_value) : Prop :=
  value (plus_assign v a) (mask_of f1) (shift_of f1)
  = value v (mask_of f1) (shift_of f1).

(** The addition stays inside field [f]: no carry leaves it. *)
Definition no_carry_out (v : GeometryID) (f : Field) (a : geo_id_value) : Prop :=
  Z.land (m_value v) (mask_of f) + a <= mask_of f.

(** A window of [w] bits starting at bit [s], read as the code reads it. *)
Definition window (x s w : Z) : Z :=
  Z.shiftr (Z.land x (Z.shiftl (Z.ones w) s)) s.

End GeometryID.

(* ===================================================================== *)
(** ** Identifier *)
(* ===================================================================== *)

Module Identifier.
Local Open Scope Z_scope.

(** [IDENTIFIER_TYPE] is [unsigned long long]: a [Z] in [0, 2^64). *)
Definition value_type := Z.

Definition wrap (z : Z) : value_type := z mod 2 ^ 64.

(** The enumerators of [bit_defs] and [max_value_type]. *)
Definition NBITS : Z := 8 * 8.
Definition MAX_BIT : value_type := wrap (Z.shiftl 1 (NBITS - 1)).
Definition ALL_BITS : value_type := wrap (Z.lnot 0).
Definition max_value : value_type := wrap (Z.lnot 0).

(** The class holds one private member, [m_id]. *)
Record Identifier := mkIdentifier { m_id : value_type }.

Definition in_range (id : Identifier) : Prop := 0 <= m_id id < 2 ^ 64.

(** [Identifier()], [Identifier(value)] and [Identifier(other)]. *)
Definition default : Identifier := {| m_id := max_value |}.
Definition from_value (value : value_type) : Identifier := {| m_id := value |}.
Definition copy (other : Identifier) : Identifier := {| m_id := m_id other |}.

(** [operator=(const Identifier&)]: when [other] is the object itself
    nothing is written, and [m_id] is [other.m_id] already. *)
Definition assign (this other : Identifier) : Identifier :=
  {| m_id := m_id other |}.

(** [operator=(value_type)]. *)
Definition assign_value (this : Identifier) (value : value_type) : Identifier :=
  {| m_id := value |}.

(** [operator|=] and [operator&=]. *)
Definition or_assign (this : Identifier) (value : value_type) : Identifier :=
  {| m_id := Z.lor (m_id this) value |}.
Definition and_assign (this : Identifier) (value : value_type) : Identifier :=
  {| m_id := Z.land (m_id this) value |}.

(** [operator value_type()] and [value()]. *)
Definition value (this : Identifier) : value_type := m_id this.

(** The comparison operators. *)
Definition eqb (this other : Identifier) : bool := m_id this =? m_id other.
Definition neqb (this other : Identifier) : bool := negb (m_id this =? m_id other).
Definition ltb (this other : Identifier) : bool := m_id this <? m_id other.
Definition gtb (this other : Identifier) : bool := m_id this >? m_id other.
Definition leb (this other : Identifier) : bool := m_id this <=? m_id other.
Definition geb (this other : Identifier) : bool := m_id this >=? m_id other.

(** [is_valid()]: [!(max_value == m_id)]. *)
Definition is_valid (this : Identifier) : bool := negb (max_value =? m_id this).

End Identifier.

(* ===================================================================== *)
(** ** AbstractVolume::createBoundarySurfaces *)
(* ===================================================================== *)

Module AbstractVolume.
Local Open Scope Z_scope.

(** The type tag returned by [Surface::type()]; the code compares it with
    [Surface::Cylinder] only. *)
Inductive SurfaceType :=
  Cone | Cylinder | Disc | Perigee | Plane | Line | Curvilinear | Other.

Definition SurfaceType_eqb (a b : SurfaceType) : bool :=
  match a, b with
  | Cone, Cone | Cylinder, Cylinder | Disc, Disc | Perigee, Perigee
  | Plane, Plane | Line, Line | Curvilinear, Curvilinear | Other, Other => true
  | _, _ => false
  end.

(** A [const Surface*] handed out by [decomposeToSurfaces]: the address
    and what [type()] answers on the pointee. *)
Record Surface := mkSurface { address : nat; type : SurfaceType }.

(** [AbstractVolume*]: [None] is [nullptr]. *)
Definition VolumePtr := option nat.

(** [BoundarySurfaceT<AbstractVolume>(surface, inner, outer)]. *)
Record BoundarySurfaceT := mkBoundarySurface {
  surfaceRepresentation : Surface;
  inner : VolumePtr;
  outer : VolumePtr
}.

(** [int sfNumber = surfaces.size()]: conversion of a [size_t] to a
    32-bit [int]. *)
Definition int_of_size (n : nat) : Z :=
  (Z.of_nat n + 2 ^ 31) mod 2 ^ 32 - 2 ^ 31.

(** The body of the range-for, for one surface [sf]. The locals
    [sfCounter] and [sfNumber] are read, never written. *)
Definition wrapSurface (this : nat) (sfCounter sfNumber : Z) (sf : Surface)
  : BoundarySurfaceT :=
  let inner : VolumePtr :=
    if SurfaceType_eqb (type sf) Cylinder && (sfCounter =? 3) && (3 <? sfNumber)
    then None else Some this in
  let outer : VolumePtr :=
    match inner with Some _ => None | None => Some this end in
  mkBoundarySurface sf inner outer.

(** [createBoundarySurfaces()], with [this], the decomposition of the
    volume bounds and the member [m_boundarySurfaces] made explicit;
    the result is the member after the loop. *)
Definition createBoundarySurfaces (this : nat) (surfaces : list Surface)
    (m_boundarySurfaces : list BoundarySurfaceT) : list BoundarySurfaceT :=
  let sfCounter := 0 in
  let sfNumber := int_of_size (length surfaces) in
  foldl (fun boundaries sf =>
           boundaries ++ [wrapSurface this sfCounter sfNumber sf])
        m_boundarySurfaces surfaces.

(** What the documentation of the loop describes: the counter follows the
    position of the surface in the decomposition. *)
Definition flippedBoundarySurfaces (this : nat) (surfaces : list Surface)
  : list BoundarySurfaceT :=
  imap (fun i sf =>
          wrapSurface this (Z.of_nat i) (int_of_size (length surfaces)) sf)
       surfaces.

(** A cylinder volume: two discs, the outer and the inner cylinder. *)
Definition cylinderVolumeSurfaces : list Surface :=
  [ mkSurface 100 Disc; mkSurface 101 Disc;
    mkSurface 102 Cylinder; mkSurface 103 Cylinder ].

(** The class: the address of the object and its member
    [m_boundarySurfaces]. *)
Record AbstractVolume := mkAbstractVolume {
  volume_address : nat;
  volume_boundarySurfaces : list BoundarySurfaceT
}.

(** The constructor: the base [Volume] is built, the member starts
    empty, and [createBoundarySurfaces()] fills it from the decomposition
    of the bounds, which is [decomposed]. *)
Definition construct (this : nat) (decomposed : list Surface) : AbstractVolume :=
  {| volume_address := this;
     volume_boundarySurfaces := createBoundarySurfaces this decomposed [] |}.

(** [boundarySurfaces()]. *)
Definition boundarySurfaces (volume : AbstractVolume) : list BoundarySurfaceT :=
  volume_boundarySurfaces volume.

End AbstractVolume.

(* ===================================================================== *)
(** ** KalmanActor *)
(* ===================================================================== *)

Module KalmanActor.

(** [const Surface*], [const Layer*] and [const TrackingVolume*] by the
    address they hold; a pointer that may be null is an [option]. *)
Definition Surface := nat.
Definition Layer := nat.
Definition TrackingVolume := nat.

(** [size_t processedStates]: a 64-bit counter, [++] wraps. *)
Definition size_t_incr (n : N) : N := ((n + 1) mod 2 ^ 64)%N.

(** The value types that the template parameters bring with them. None
    of them is inspected by the actor. *)
Class Types := {
  Vector3D : Type;
  Scalar : Type;
  Covariance : Type;
  NavigationDirection : Type;
  TrackState : Type;
  BoundState : Type;
  Engine : Type
}.

Section Actor.
Context `{Types}.

(** The result of [Surface::intersectionEstimate]: it converts to [bool]
    (a valid intersection) and has a [position]. *)
Record Intersection := mkIntersection {
  position : Vector3D;
  valid : bool
}.

(** The parameters an updator returns on success. *)
Record Parameters := mkParameters {
  par_position : Vector3D;
  par_momentum : Vector3D;
  par_covariance : Covariance
}.

(** [state.stepping]: the members the actor reads or writes. *)
Record Stepping := mkStepping {
  pos : Vector3D;
  dir : Vector3D;
  p : Scalar;
  cov : Covariance;
  navDir : NavigationDirection
}.

(** [std::multimap<const Layer*, const Surface*>]: the entries in
    iteration order, that is sorted by key, equal keys in insertion
    order. *)
Definition MeasurementSurfaces := list (Layer * Surface).

(** [state.navigation]; [externalSurfaces] is the member
    [sequence.externalSurfaces]. *)
Record Navigation := mkNavigation {
  currentSurface : option Surface;
  worldVolume : option TrackingVolume;
  externalSurfaces : MeasurementSurfaces
}.

(** The propagator state. [engine] stands for every member that the actor
    does not name: the options, the step counters and whatever the
    engine reads as a request to stop. *)
Record PropagatorState := mkState {
  stepping : Stepping;
  navigation : Navigation;
  engine : Engine
}.

(** [struct this_result]. *)
Record this_result := mkResult {
  fittedStates : list TrackState;
  processedStates : N;
  accessIndex : gmap Surface nat
}.

(** A default-constructed [this_result]. *)
Definition fresh_result : this_result :=
  {| fittedStates := []; processedStates := 0%N; accessIndex := ∅ |}.

(** The calls that leave the file: geometry, transport and vector
    algebra. *)
Class Collaborators := {
  (** [detail::getSurface(tState)] *)
  getSurface : TrackState -> Surface;
  (** [surface->associatedLayer()] *)
  associatedLayer : Surface -> option Layer;
  (** [surface->intersectionEstimate(pos, dir, navDir, false)] *)
  intersectionEstimate :
    Surface -> Vector3D -> Vector3D -> NavigationDirection -> bool -> Intersection;
  (** [volume->trackingVolume(gp)] *)
  trackingVolume : TrackingVolume -> Vector3D -> option TrackingVolume;
  (** [volume->associatedLayer(gp)] *)
  volumeAssociatedLayer : TrackingVolume -> Vector3D -> option Layer;
  (** [state.stepping.bind(surface, reinitialize)]: the bound state and
      the stepping state it leaves behind *)
  bind : Surface -> bool -> Stepping -> BoundState * Stepping;
  (** [v.normalized()], [v.norm()] *)
  normalized : Vector3D -> Vector3D;
  norm : Vector3D -> Scalar
}.

Context `{Collaborators}.

(** The actor: the public member [trackStates] and the updator. The
    updator is called on a local copy of the track state; it answers with
    that copy as it left it and with the optional updated parameters. *)
Record KalmanActor := mkActor {
  trackStates : list TrackState;
  m_updator : TrackState -> BoundState -> TrackState * option Parameters
}.

(** [state.stepping.position()] and [state.stepping.direction()]. *)
Definition stepping_position (s : Stepping) : Vector3D := pos s.
Definition stepping_direction (s : Stepping) : Vector3D := dir s.

(** Modelled from the spec: the stepper state's [update(pos, dir, p)],
    which is declared outside src/; it overwrites the running position,
    direction and momentum magnitude. *)
Definition stepping_update (uposition udirection : Vector3D) (up : Scalar)
    (s : Stepping) : Stepping :=
  {| pos := uposition; dir := udirection; p := up;
     cov := cov s; navDir := navDir s |}.

(** [state.stepping.cov = c]. *)
Definition set_cov (c : Covariance) (s : Stepping) : Stepping :=
  {| pos := pos s; dir := dir s; p := p s; cov := c; navDir := navDir s |}.

Definition set_stepping (s : Stepping) (state : PropagatorState) : PropagatorState :=
  {| stepping := s; navigation := navigation state; engine := engine state |}.

Definition set_externalSurfaces (m : MeasurementSurfaces) (state : PropagatorState)
  : PropagatorState :=
  {| stepping := stepping state;
     navigation := {| currentSurface := currentSurface (navigation state);
                      worldVolume := worldVolume (navigation state);
                      externalSurfaces := m |};
     engine := engine state |}.

(** [multimap::insert]: the new entry goes behind every entry whose key
    is not greater. *)
Fixpoint multimap_insert (kv : Layer * Surface) (m : MeasurementSurfaces)
  : MeasurementSurfaces :=
  match m with
  | [] => [kv]
  | kv' :: m' =>
      if kv.1 <? kv'.1 then kv :: kv' :: m'
      else kv' :: multimap_insert kv m'
  end.

(** Lines 155-171 of [initialize]: the layer of a surface, from its back
    reference or from the geometry search at the estimated intersection. *)
Definition resolveLayer (state : PropagatorState) (surface : Surface) : option Layer :=
  match associatedLayer surface with
  | Some layer => Some layer
  | None =>
      let surfaceIntersection :=
        intersectionEstimate surface
          (stepping_position (stepping state))
          (stepping_direction (stepping state))
          (navDir (stepping state)) false in
      match valid surfaceIntersection, worldVolume (navigation state) with
      | true, Some world =>
          let intersection := position surfaceIntersection in
          match trackingVolume world intersection with
          | Some layerVolume => volumeAssociatedLayer layerVolume intersection
          | None => None
          end
      | _, _ => None
      end
  end.

(** The locals that the loop of [initialize] carries. *)
Record InitLoop := mkInitLoop {
  measurementSurfaces : MeasurementSurfaces;
  loop_accessIndex : gmap Surface nat;
  stateIndex : nat
}.

(** One iteration of the loop over [result.fittedStates]. [stateIndex]
    counts elements of the vector already visited, so it stays below the
    vector's size and is kept as a [nat]. *)
Definition initialize_step (state : PropagatorState) (loop : InitLoop)
    (tState : TrackState) : InitLoop :=
  let surface := getSurface tState in
  match resolveLayer state surface with
  | Some layer =>
      {| measurementSurfaces :=
           multimap_insert (layer, surface) (measurementSurfaces loop);
         loop_accessIndex := <[surface := stateIndex loop]> (loop_accessIndex loop);
         stateIndex := S (stateIndex loop) |}
  | None =>
      {| measurementSurfaces := measurementSurfaces loop;
         loop_accessIndex := loop_accessIndex loop;
         stateIndex := S (stateIndex loop) |}
  end.

Definition initialize_loop (state : PropagatorState) (accessIndex0 : gmap Surface nat)
    (states : list TrackState) : InitLoop :=
  foldl (initialize_step state)
        {| measurementSurfaces := []; loop_accessIndex := accessIndex0;
           stateIndex := 0 |}
        states.

(** [initialize(state, result)]. The method is [const], so
    [std::move(trackStates)] copies the member and leaves it as it was. *)
Definition initialize (actor : KalmanActor) (state : PropagatorState)
    (result : this_result) : PropagatorState * this_result :=
  let fitted := trackStates actor in
  let loop := initialize_loop state (accessIndex result) fitted in
  (set_externalSurfaces (measurementSurfaces loop) state,
   {| fittedStates := fitted;
      processedStates := processedStates result;
      accessIndex := loop_accessIndex loop |}).

(** Lines 124-129 of [update]: the stepping state after the updator
    answered. *)
Definition correct_stepping (updPar : option Parameters) (s : Stepping) : Stepping :=
  match updPar with
  | Some par =>
      let updPos := par_position par in
      let updMom := par_momentum par in
      set_cov (par_covariance par)
              (stepping_update updPos (normalized updMom) (norm updMom) s)
  | None => s
  end.

Definition count_processed (result : this_result) : this_result :=
  {| fittedStates := fittedStates result;
     processedStates := size_t_incr (processedStates result);
     accessIndex := accessIndex result |}.

(** [update(surface, state, result)]. [None] is the undefined behaviour
    of [fittedStates[i]] with [i] out of range. *)
Definition update (actor : KalmanActor) (surface : Surface)
    (state : PropagatorState) (result : this_result)
  : option (PropagatorState * this_result) :=
  match accessIndex result !! surface with
  | Some index =>
      let '(boundState, bound) := bind surface true (stepping state) in
      match fittedStates result !! index with
      | Some trackState =>
          let '(_, updPar) := m_updator actor trackState boundState in
          Some (set_stepping (correct_stepping updPar bound) state,
                count_processed result)
      | None => None
      end
  | None => Some (state, result)
  end.

(** The comparison of line 98, [processedStates == trackStates.size()]. *)
Definition all_handled (actor : KalmanActor) (result : this_result) : bool :=
  (processedStates result =? N.of_nat (length (trackStates actor)))%N.

(** [operator()(state, result)]. The [if] of line 98 guards no
    statement. *)
Definition operator_call (actor : KalmanActor) (state : PropagatorState)
    (result : this_result) : option (PropagatorState * this_result) :=
  let '(state, result) :=
    match fittedStates result with
    | [] => initialize actor state result
    | _ :: _ => (state, result)
    end in
  let updated :=
    match currentSurface (navigation state) with
    | Some surface => update actor surface state result
    | None => Some (state, result)
    end in
  match updated with
  | Some (state, result) =>
      if all_handled actor result then Some (state, result)
      else Some (state, result)
  | None => None
  end.

(** The engine's side of one step, as far as the actor sees it: the
    navigation publishes the surface it reached. *)
Definition report (surface : option Surface) (state : PropagatorState)
  : PropagatorState :=
  {| stepping := stepping state;
     navigation := {| currentSurface := surface;
                      worldVolume := worldVolume (navigation state);
                      externalSurfaces := externalSurfaces (navigation state) |};
     engine := engine state |}.

(** A sequence of steps: at each, the reported surface, then the actor. *)
Fixpoint propagate (actor : KalmanActor) (reports : list (option Surface))
    (state : PropagatorState) (result : this_result)
  : option (PropagatorState * this_result) :=
  match reports with
  | [] => Some (state, result)
  | surface :: reports' =>
      match operator_call actor (report surface state) result with
      | Some (state', result') => propagate actor reports' state' result'
      | None => None
      end
  end.

(** The (layer, surface) pairs of the states whose layer resolves, in
    the order of the states. *)
Definition resolved_entries (state : PropagatorState) (states : list TrackState)
  : list (Layer * Surface) :=
  omap (fun tState =>
          (fun layer => (layer, getSurface tState))
            <$> resolveLayer state (getSurface tState))
       states.

(** The entries of the multimap that hold a given surface. *)
Definition entries_of (surface : Surface) (m : MeasurementSurfaces)
  : MeasurementSurfaces :=
  filter (fun kv => kv.2 = surface) m.

(** The order of the multimap, on keys only. *)
Definition key_le (a b : Layer * Surface) : Prop := a.1 <= b.1.
Definition key_lt (a b : Layer * Surface) : Prop := a.1 < b.1.

(** The ways in which lines 155-171 of [initialize] leave [layer] null:
    no back reference, and then no intersection, or no world volume, or
    no volume or no layer at the intersection. *)
Definition layer_unresolved (state : PropagatorState) (surface : Surface) : Prop :=
  associatedLayer surface = None /\
  let surfaceIntersection :=
    intersectionEstimate surface
      (stepping_position (stepping state))
      (stepping_direction (stepping state))
      (navDir (stepping state)) false in
  (valid surfaceIntersection = false
   \/ worldVolume (navigation state) = None
   \/ exists world,
        worldVolume (navigation state) = Some world /\
        match trackingVolume world (position surfaceIntersection) with
        | Some layerVolume =>
            volumeAssociatedLayer layerVolume (position surfaceIntersection) = None
        | None => True
        end).

(** Every state's surface resolves to a layer, and no two states share
    one. *)
Definition distinct_layers (state : PropagatorState) (states : list TrackState)
  : Prop :=
  exists layers : list Layer,
    NoDup layers /\
    Forall2 (fun tState layer => resolveLayer state (getSurface tState) = Some layer)
            states layers.

(** [index] is the position of the last state on [surface]. *)
Definition last_on (surface : Surface) (states : list TrackState) (index : nat)
  : Prop :=
  (exists tState, states !! index = Some tState /\ getSurface tState = surface) /\
  forall j tState,
    states !! j = Some tState -> getSurface tState = surface -> j <= index.

(** Every stored index addresses an element of [fittedStates]. *)
Definition index_in_bounds (result : this_result) : Prop :=
  map_Forall (fun _ index => index < length (fittedStates result))
             (accessIndex result).

(** A step counts when it reports a surface that is a key of the index. *)
Definition is_hit (index : gmap Surface nat) (reported : option Surface) : bool :=
  match reported with
  | Some surface => bool_decide (is_Some (index !! surface))
  | None => false
  end.

Definition hits (index : gmap Surface nat) (reports : list (option Surface)) : nat :=
  length (filter (fun reported => is_hit index reported = true) reports).

(** [k] times [++] on a [size_t]. *)
Definition size_t_add (n : N) (k : nat) : N := ((n + N.of_nat k) mod 2 ^ 64)%N.

(** The entries of the multimap under one key, in iteration order. *)
Definition bucket (layer : Layer) (m : MeasurementSurfaces) : MeasurementSurfaces :=
  filter (fun kv => kv.1 = layer) m.

End Actor.
End KalmanActor.

(* ===================================================================== *)
(** ** KalmanActor::debugLog *)
(* ===================================================================== *)

Module DebugLog.
Local Open Scope string_scope.

(** [state.options], the members that [debugLog] names. *)
Record Options := mkOptions {
  debug : bool;
  debugString : string;
  debugPfxWidth : Z;
  debugMsgWidth : Z
}.

Fixpoint spaces (n : nat) : string :=
  match n with
  | O => EmptyString
  | S n' => String " "%char (spaces n')
  end.

(** [stream << std::setw(width) << s]: a string shorter than [width] is
    filled with blanks on the left, a longer one is written as it is. *)
Definition setw (width : Z) (s : string) : string :=
  spaces (Z.to_nat (width - Z.of_nat (String.length s))) ++ s.

Definition newline : string := String "010"%char EmptyString.

(** The text that the body puts into [dstream]. *)
Definition debugLine (navDir_is_forward : bool) (options : Options)
    (message : string) : string :=
  let ds := if navDir_is_forward then "K->" else "<-K" in
  ds ++ setw (debugPfxWidth options) "KalmanActor" ++ " | "
     ++ setw (debugMsgWidth options) message ++ newline.

(** [debugLog(state, logAction)], on what it reads and writes:
    [navDir_is_forward] is [state.stepping.navDir == forward], [options]
    is [state.options]. [logAction] is called inside the [if] only. *)
Definition debugLog (navDir_is_forward : bool) (options : Options)
    (logAction : unit -> string) : Options :=
  if debug options then
    {| debug := debug options;
       debugString :=
         debugString options ++ debugLine navDir_is_forward options (logAction tt);
       debugPfxWidth := debugPfxWidth options;
       debugMsgWidth := debugMsgWidth options |}
  else options.

End DebugLog.

(* ===================================================================== *)
(** ** A small telescope: concrete collaborators to run the actor on *)
(* ===================================================================== *)

Module Telescope.
Import KalmanActor.
Local Open Scope Z_scope.

(** Vectors over [Z]; a track state is its surface and a measured
    value; the engine's own state is its stop flag. *)
#[global] Instance types : Types := {|
  Vector3D := Z * Z * Z;
  Scalar := Z;
  Covariance := Z;
  NavigationDirection := bool;
  TrackState := Surface * Z;
  BoundState := Z * Z * Z;
  Engine := bool
|}.

(** Surfaces 11..15 carry a back reference to the layers 1..5. Surface 21
    has none, but is hit at x = 21, where volume 1 knows layer 6.
    Surface 31 has none and is not hit. *)
Definition telescope_layer (surface : Surface) : option Layer :=
  if ((11 <=? surface) && (surface <=? 15))%nat then Some (surface - 10)%nat
  else None.

Definition telescope_intersection (surface : Surface) (position : Z * Z * Z)
  : @Intersection types :=
  if (surface =? 21)%nat then @mkIntersection types (21, 0, 0) true
  else @mkIntersection types position false.

Definition telescope_bind (surface : Surface) (reinitialize : bool)
    (s : @Stepping types) : Z * Z * Z * @Stepping types :=
  ((Z.of_nat surface, 0, 0),
   @mkStepping types (Z.of_nat surface, 0, 0) (dir s) (p s) (cov s + 1) (navDir s)).

#[global] Instance collaborators : @Collaborators types :=
  @Build_Collaborators types
    (fun tState : Surface * Z => tState.1)
    telescope_layer
    (fun surface position _ _ _ => telescope_intersection surface position)
    (fun _ _ => Some 1%nat)
    (fun _ gp => if gp.1.1 =? 21 then Some 6%nat else None)
    telescope_bind
    (fun v => v)
    (fun v => v.1.1).

(** An updator that rejects negative measurements and otherwise moves
    the position by the measured value. *)
Definition updator (tState : Surface * Z) (bound : Z * Z * Z)
  : (Surface * Z) * option (@Parameters types) :=
  (tState,
   if tState.2 <? 0 then None
   else Some (@mkParameters types (bound.1.1, tState.2, 0) (1, 0, 0) tState.2)).

Definition actor_of (states : list (Surface * Z)) : KalmanActor :=
  @mkActor types states updator.

Definition state0 : PropagatorState :=
  {| stepping := {| pos := (0, 0, 0); dir := (1, 0, 0); p := 1; cov := 0;
                    navDir := true |};
     navigation := {| currentSurface := None; worldVolume := Some 0%nat;
                      externalSurfaces := [] |};
     engine := false |}.

(** Five states on the five surfaces with a layer, in trajectory order. *)
Definition five_states : list (Surface * Z) :=
  [(11%nat, 5); (12%nat, 7); (13%nat, 2); (14%nat, 9); (15%nat, 4)].

(** The same, with a measurement on the third that the updator rejects. *)
Definition five_states_reject3 : list (Surface * Z) :=
  [(11%nat, 5); (12%nat, 7); (13%nat, -2); (14%nat, 9); (15%nat, 4)].

Definition five_reports : list (option Surface) :=
  [Some 11%nat; Some 12%nat; Some 13%nat; Some 14%nat; Some 15%nat].

(** The result after the first call on the five states, and the state
    in which the navigation reports a surface. *)
Definition five_initialized : this_result :=
  (initialize (actor_of five_states_reject3) state0 fresh_result).2.

Definition at_surface (surface : Surface) : PropagatorState :=
  report (Some surface) state0.

(** A single state, whose surface the navigation reports twice. *)
Definition one_state : list (Surface * Z) := [(11%nat, 5)].
Definition revisit_reports : list (option Surface) := [Some 11%nat; Some 11%nat].


(** A state with a back reference, one without layer, one whose layer
    the geometry search finds. *)
Definition mixed_states : list (Surface * Z) :=
  [(11%nat, 5); (31%nat, 3); (21%nat, 4)].

(** Three states and the same three in another order. *)
Definition three_states : list (Surface * Z) :=
  [(13%nat, 1); (11%nat, 2); (12%nat, 3)].
Definition three_states_rotated : list (Surface * Z) :=
  [(11%nat, 2); (12%nat, 3); (13%nat, 1)].



(** What an observer of a finished run sees: the count, the comparison
    of line 98 and the engine's stop flag. *)
Definition outcome (actor : KalmanActor)
    (run : option (PropagatorState * this_result)) : option (N * bool * bool) :=
  (fun x => (processedStates x.2, all_handled actor x.2, engine x.1)) <$> run.

End Telescope.


(* ===================================================================== *)
(** ** Facts about GeometryID *)
(* ===================================================================== *)

Section GeometryIDFacts.
Import GeometryID.
Local Open Scope Z_scope.

Lemma window_div_mod x s w :
  0 <= s -> 0 <= w -> window x s w = (x / 2 ^ s) mod 2 ^ w.
Proof.
  intros Hs Hw. unfold window.
  rewrite Z.shiftr_land, Z.shiftr_shiftl_l by lia.
  rewrite Z.sub_diag, Z.shiftl_0_r, Z.land_ones, Z.shiftr_div_pow2 by lia.
  reflexivity.
Qed.

Lemma land_window x s w :
  0 <= s -> 0 <= w ->
  Z.land x (Z.shiftl (Z.ones w) s) = window x s w * 2 ^ s.
Proof.
  intros Hs Hw. unfold window. rewrite <- Z.shiftl_mul_pow2 by lia.
  apply Z.bits_inj'. intros n Hn.
  rewrite Z.land_spec, !Z.shiftl_spec by lia.
  destruct (Z.ltb_spec n s) as [Hlt | Hge].
  - rewrite !(Z.testbit_neg_r _ (n - s)) by lia. apply andb_false_r.
  - rewrite Z.shiftr_spec, Z.land_spec, Z.shiftl_spec by lia.
    replace (n - s + s) with n by lia. reflexivity.
Qed.

Lemma window_bound x s w : 0 <= s -> 0 <= w -> 0 <= window x s w < 2 ^ w.
Proof.
  intros Hs Hw. rewrite window_div_mod by lia.
  apply Z.mod_pos_bound. apply Z.pow_pos_nonneg; lia.
Qed.

(** a window below an addend that is a multiple of a higher power of two *)
Lemma window_below x k s1 w1 s2 :
  0 <= s1 -> 0 <= w1 -> s1 + w1 <= s2 -> s2 <= 64 ->
  window (wrap64 (x + k * 2 ^ s2)) s1 w1 = window x s1 w1.
Proof.
  intros Hs1 Hw1 Hle H64. unfold window, wrap64.
  apply Z.bits_inj'. intros n Hn.
  rewrite !Z.shiftr_spec, !Z.land_spec, !Z.shiftl_spec by lia.
  replace (n + s1 - s1) with n by lia.
  destruct (Z.ltb_spec n w1) as [Hlt | Hge].
  - f_equal. rewrite Z.mod_pow2_bits_low by lia.
    rewrite <- (Z.mod_pow2_bits_low (x + _) s2), <- (Z.mod_pow2_bits_low x s2) by lia.
    rewrite Z.mod_add by (apply Z.pow_nonzero; lia). reflexivity.
  - rewrite Z.ones_spec_high by lia. rewrite !andb_false_r. reflexivity.
Qed.

(** a window above a position the addition does not carry across *)
Lemma window_above x a s1 w1 t :
  0 <= t -> t <= s1 -> 0 <= w1 -> t <= 64 ->
  0 <= x < 2 ^ 64 -> 0 <= a -> x mod 2 ^ t + a < 2 ^ t ->
  window (wrap64 (x + a)) s1 w1 = window x s1 w1.
Proof.
  intros Ht Hts Hw1 H64 Hx Ha Hcarry.
  assert (Hpt : 0 < 2 ^ t) by (apply Z.pow_pos_nonneg; lia).
  assert (Hdiv : (x + a) / 2 ^ t = x / 2 ^ t).
  { symmetry. apply (Z.div_unique_pos _ _ _ (x mod 2 ^ t + a)).
    - pose proof (Z.mod_pos_bound x (2 ^ t) Hpt). lia.
    - pose proof (Z.div_mod x (2 ^ t)). lia. }
  assert (Hsmall : 0 <= x + a < 2 ^ 64).
  { split; [lia |].
    pose proof (Z.div_mod x (2 ^ t) ltac:(lia)) as Hdm.
    assert (x / 2 ^ t < 2 ^ (64 - t)).
    { apply Z.div_lt_upper_bound; [lia |].
      rewrite <- Z.pow_add_r by lia. replace (t + (64 - t)) with 64 by lia. lia. }
    assert (2 ^ 64 = 2 ^ t * 2 ^ (64 - t)).
    { rewrite <- Z.pow_add_r by lia. f_equal. lia. }
    nia. }
  unfold wrap64. rewrite Z.mod_small by lia.
  rewrite !window_div_mod by lia.
  replace s1 with (t + (s1 - t)) by lia.
  rewrite Z.pow_add_r by lia.
  rewrite <- !Z.div_div by (try apply Z.pow_pos_nonneg; lia).
  rewrite Hdiv. reflexivity.
Qed.

Ltac unfold_shifts :=
  cbv [shift_of width_of volume_shift boundary_shift layer_shift
       approach_shift sensitive_shift channel_shift].

Lemma mask_of_window f :
  mask_of f = Z.shiftl (Z.ones (width_of f)) (shift_of f).
Proof. destruct f; reflexivity. Qed.

Lemma value_window v f :
  value v (mask_of f) (shift_of f) = window (m_value v) (shift_of f) (width_of f).
Proof. destruct f; reflexivity. Qed.

Lemma field_geometry f :
  0 <= shift_of f /\ 0 < width_of f /\ shift_of f + width_of f <= 64.
Proof. destruct f; unfold_shifts; lia. Qed.

(** Two different fields do not overlap: one ends where the other has
    not yet begun. *)
Lemma fields_disjoint f1 f2 :
  f1 <> f2 ->
  (shift_of f1 < shift_of f2 /\ shift_of f1 + width_of f1 <= shift_of f2)
  \/ (shift_of f2 < shift_of f1 /\ shift_of f2 + width_of f2 <= shift_of f1).
Proof. destruct f1, f2; unfold_shifts; intros Hne; try congruence; lia. Qed.

Lemma window_plus_assign x a s1 w1 s2 w2 :
  0 <= s1 -> 0 <= w1 -> 0 <= s2 -> 0 <= w2 -> s2 + w2 <= 64 ->
  0 <= x < 2 ^ 64 ->
  Z.land a (Z.shiftl (Z.ones w2) s2) = a ->
  s1 + w1 <= s2
  \/ (s2 + w2 <= s1
      /\ Z.land x (Z.shiftl (Z.ones w2) s2) + a <= Z.shiftl (Z.ones w2) s2) ->
  window (wrap64 (x + a)) s1 w1 = window x s1 w1.
Proof.
  intros Hs1 Hw1 Hs2 Hw2 H64 Hx Hconf Hcase.
  rewrite land_window in Hconf by lia.
  pose proof (window_bound a s2 w2 Hs2 Hw2) as Hk.
  assert (Hp2 : 0 < 2 ^ s2) by (apply Z.pow_pos_nonneg; lia).
  destruct Hcase as [Hbelow | [Habove Hcarry]].
  - rewrite <- Hconf. apply window_below; lia.
  - apply window_above with (t := s2 + w2); try lia.
    rewrite land_window in Hcarry by lia.
    rewrite Z.shiftl_mul_pow2, Z.ones_equiv in Hcarry by lia.
    rewrite Z.pow_add_r, Z.rem_mul_r by lia.
    rewrite <- window_div_mod by lia.
    pose proof (Z.mod_pos_bound x (2 ^ s2) Hp2). nia.
Qed.

(** C4, as amended: for every valid GeometryID [v], two different
    subfields [f1] and [f2] among the six, and an addend confined to the
    mask of [f2], reading [f1] gives the same before and after [v += a],
    provided [f1] lies below [f2] or the addition does not carry out of
    [f2]. *)
Theorem value_plus_assign_other_field v f1 f2 a :
  valid v -> f1 <> f2 -> confined a f2 ->
  shift_of f1 < shift_of f2 \/ no_carry_out v f2 a ->
  field_untouched v f1 a.
Proof.
  unfold valid, confined, no_carry_out, field_untouched.
  intros Hv Hne Hconf Hcase.
  rewrite !value_window. cbn [plus_assign m_value].
  rewrite mask_of_window in Hconf, Hcase.
  destruct (field_geometry f1) as (? & ? & ?).
  destruct (field_geometry f2) as (? & ? & ?).
  apply window_plus_assign with (s2 := shift_of f2) (w2 := width_of f2);
    try lia; try assumption.
  destruct (fields_disjoint f1 f2 Hne) as [[? ?] | [? ?]]; [left; lia |].
  right. split; [lia |]. destruct Hcase as [? | ?]; [lia | assumption].
Qed.

Lemma value_plus_assign_other_field_witness :
  field_untouched (mkGeometryID 0x0102030400050006) Sensitive 0x00f0.
Proof.
  apply (value_plus_assign_other_field _ Sensitive Channel).
  - unfold valid; cbn; lia.
  - discriminate.
  - reflexivity.
  - right. unfold no_carry_out. vm_compute. discriminate.
Defined.

(** C4, as stated, fails: adding 1 (confined to the channel field) to an
    identifier whose channel field is full carries into the sensitive
    field. *)
Lemma value_plus_assign_carry_counterexample :
  valid (mkGeometryID 0xffff) /\ Sensitive <> Channel /\ confined 1 Channel
  /\ value (mkGeometryID 0xffff) (mask_of Sensitive) (shift_of Sensitive) = 0
  /\ value (plus_assign (mkGeometryID 0xffff) 1)
           (mask_of Sensitive) (shift_of Sensitive) = 1
  /\ ~ field_untouched (mkGeometryID 0xffff) Sensitive 1.
Proof.
  unfold valid, confined, field_untouched.
  repeat split; try reflexivity; try discriminate; vm_compute; discriminate.
Qed.

End GeometryIDFacts.

(* ===================================================================== *)
(** ** Facts about createBoundarySurfaces *)
(* ===================================================================== *)

Section AbstractVolumeFacts.
Import AbstractVolume.

(** With the counter at 0 the test for the flip fails for every surface. *)
Lemma wrapSurface_counter_0 this sfNumber sf :
  wrapSurface this 0 sfNumber sf = mkBoundarySurface sf (Some this) None.
Proof.
  unfold wrapSurface. change (0 =? 3)%Z with false.
  rewrite andb_false_r. reflexivity.
Qed.

(** The loop appends one wrapper per surface, each with [inner = this]
    and [outer = nullptr]. *)
Lemma createBoundarySurfaces_unfold this surfaces boundaries :
  createBoundarySurfaces this surfaces boundaries
  = boundaries ++ map (fun sf => mkBoundarySurface sf (Some this) None) surfaces.
Proof.
  unfold createBoundarySurfaces.
  generalize (int_of_size (length surfaces)) as sfNumber. intros sfNumber.
  revert boundaries. induction surfaces as [| sf surfaces IH]; intros boundaries.
  - cbn. now rewrite app_nil_r.
  - cbn [foldl map]. rewrite IH, wrapSurface_counter_0, <- app_assoc. reflexivity.
Qed.

Lemma createBoundarySurfaces_never_flips this surfaces b :
  b ∈ createBoundarySurfaces this surfaces [] ->
  inner b = Some this /\ outer b = None.
Proof.
  rewrite createBoundarySurfaces_unfold. cbn [app].
  intros Hb. apply list_elem_of_fmap in Hb as (sf & -> & _). split; reflexivity.
Qed.

(** C2 on the four surfaces of a cylinder volume: the code wraps the
    cylinder at index 3 with [inner] = the volume and [outer] = null,
    where the flip that the loop documents (and the claim states) gives
    [inner] = null and [outer] = the volume. *)
Theorem createBoundarySurfaces_cylinder_index3 :
  createBoundarySurfaces 7 cylinderVolumeSurfaces [] !! 3
  = Some (mkBoundarySurface (mkSurface 103 Cylinder) (Some 7) None)
  /\ flippedBoundarySurfaces 7 cylinderVolumeSurfaces !! 3
     = Some (mkBoundarySurface (mkSurface 103 Cylinder) None (Some 7)).
Proof. split; reflexivity. Qed.

End AbstractVolumeFacts.

(* ===================================================================== *)
(** ** Facts about the KalmanActor *)
(* ===================================================================== *)

Section KalmanActorFacts.
Import KalmanActor.
Context {T : Types} {C : Collaborators}.

(** *** The multimap *)

Lemma multimap_insert_perm kv (m : MeasurementSurfaces) :
  multimap_insert kv m ≡ₚ kv :: m.
Proof.
  induction m as [| kv' m IH]; cbn [multimap_insert]; [done |].
  destruct (kv.1 <? kv'.1); [done |].
  rewrite IH. apply Permutation_swap.
Qed.

Lemma multimap_insert_HdRel a kv (m : MeasurementSurfaces) :
  HdRel key_le a m -> key_le a kv -> HdRel key_le a (multimap_insert kv m).
Proof.
  intros Hhd Hle. destruct m as [| kv' m]; cbn [multimap_insert]; [by constructor |].
  destruct (kv.1 <? kv'.1); constructor; [done |].
  by inversion Hhd.
Qed.

Lemma multimap_insert_sorted kv (m : MeasurementSurfaces) :
  Sorted key_le m -> Sorted key_le (multimap_insert kv m).
Proof.
  induction 1 as [| kv' m Hsorted IH Hhd]; cbn [multimap_insert].
  - repeat constructor.
  - destruct (Nat.ltb_spec kv.1 kv'.1) as [Hlt | Hge].
    + constructor; [by constructor |]. constructor. unfold key_le. lia.
    + constructor; [done |]. by apply multimap_insert_HdRel.
Qed.

(** Sorted on keys that are pairwise different is strictly sorted. *)
Lemma sorted_key_lt (m : MeasurementSurfaces) :
  Sorted key_le m -> NoDup m.*1 -> Sorted key_lt m.
Proof.
  induction 1 as [| kv m Hsorted IH Hhd]; intros Hnd; [constructor |].
  cbn in Hnd. apply NoDup_cons in Hnd as [Hnotin Hnd].
  constructor; [by apply IH |].
  destruct Hhd as [| kv' m' Hle]; constructor.
  unfold key_le in Hle. unfold key_lt.
  assert (kv.1 <> kv'.1); [| lia].
  intros Heq. apply Hnotin. rewrite Heq. cbn. left.
Qed.

#[local] Instance key_lt_trans : Transitive key_lt.
Proof. unfold key_lt. intros a b c; lia. Qed.

#[local] Instance key_lt_antisym : AntiSymm (=) key_lt.
Proof. unfold key_lt. intros a b ? ?; lia. Qed.

(** *** The loop of initialize *)

Lemma initialize_loop_snoc state ai0 l tState :
  initialize_loop state ai0 (l ++ [tState])
  = initialize_step state (initialize_loop state ai0 l) tState.
Proof. unfold initialize_loop. by rewrite foldl_app. Qed.

Lemma resolved_entries_snoc state l tState :
  resolved_entries state (l ++ [tState])
  = resolved_entries state l
    ++ match resolveLayer state (getSurface tState) with
       | Some layer => [(layer, getSurface tState)]
       | None => []
       end.
Proof.
  unfold resolved_entries. rewrite omap_app. f_equal. cbn.
  by destruct (resolveLayer state (getSurface tState)).
Qed.

Lemma stateIndex_initialize_loop state ai0 l :
  stateIndex (initialize_loop state ai0 l) = length l.
Proof.
  induction l as [| tState l IH] using rev_ind; [done |].
  rewrite initialize_loop_snoc, length_app. unfold initialize_step.
  destruct (resolveLayer state (getSurface tState)); cbn; lia.
Qed.

Lemma measurementSurfaces_perm state ai0 l :
  measurementSurfaces (initialize_loop state ai0 l) ≡ₚ resolved_entries state l.
Proof.
  induction l as [| tState l IH] using rev_ind; [done |].
  rewrite initialize_loop_snoc, resolved_entries_snoc. unfold initialize_step.
  destruct (resolveLayer state (getSurface tState)) as [layer |]; cbn.
  - rewrite multimap_insert_perm, IH. apply Permutation_cons_append.
  - by rewrite app_nil_r.
Qed.

Lemma measurementSurfaces_sorted state ai0 l :
  Sorted key_le (measurementSurfaces (initialize_loop state ai0 l)).
Proof.
  induction l as [| tState l IH] using rev_ind; [constructor |].
  rewrite initialize_loop_snoc. unfold initialize_step.
  destruct (resolveLayer state (getSurface tState)); cbn; [| done].
  by apply multimap_insert_sorted.
Qed.

Lemma dom_initialize_loop state ai0 l :
  dom (loop_accessIndex (initialize_loop state ai0 l))
  = dom ai0 ∪ list_to_set (resolved_entries state l).*2.
Proof.
  induction l as [| tState l IH] using rev_ind.
  - cbn. by rewrite (right_id_L ∅ (∪)).
  - rewrite initialize_loop_snoc, resolved_entries_snoc. unfold initialize_step.
    destruct (resolveLayer state (getSurface tState)) as [layer |]; cbn.
    + rewrite dom_insert_L, IH, fmap_app, list_to_set_app_L. cbn.
      rewrite (right_id_L ∅ (∪)), (comm_L (∪) {[getSurface tState]}).
      by rewrite (assoc_L (∪)).
    + by rewrite app_nil_r.
Qed.

(** An index found in the map was there before, or is the position of a
    state on that surface whose layer resolved. *)
Lemma accessIndex_found state ai0 l surface index :
  loop_accessIndex (initialize_loop state ai0 l) !! surface = Some index ->
  ai0 !! surface = Some index
  \/ exists tState,
       l !! index = Some tState /\ getSurface tState = surface
       /\ is_Some (resolveLayer state surface).
Proof.
  induction l as [| tState l IH] using rev_ind; [by left |].
  rewrite initialize_loop_snoc. unfold initialize_step.
  destruct (resolveLayer state (getSurface tState)) as [layer |] eqn:Hlayer; cbn.
  - destruct (decide (getSurface tState = surface)) as [<- | Hne].
    + rewrite lookup_insert_eq, stateIndex_initialize_loop. intros [= <-].
      right. exists tState. split; [| by eauto].
      by rewrite lookup_app_r, Nat.sub_diag.
    + rewrite lookup_insert_ne by done. intros Hfound.
      destruct (IH Hfound) as [? | (t' & Hl & ? & ?)]; [by left |].
      right. exists t'. split; [| done].
      by apply lookup_app_l_Some.
  - intros Hfound.
    destruct (IH Hfound) as [? | (t' & Hl & ? & ?)]; [by left |].
    right. exists t'. split; [| done]. by apply lookup_app_l_Some.
Qed.

(** The map sends a surface whose layer resolves to the position of the
    last state on it. *)
Lemma accessIndex_last state ai0 l surface index :
  is_Some (resolveLayer state surface) ->
  last_on surface l index ->
  loop_accessIndex (initialize_loop state ai0 l) !! surface = Some index.
Proof.
  intros [layer Hlayer]. revert index.
  induction l as [| tState l IH] using rev_ind;
    intros index [(t & Hl & Hsurf) Hlast]; [done |].
  rewrite initialize_loop_snoc. unfold initialize_step.
  destruct (decide (getSurface tState = surface)) as [Heq | Hne].
  - rewrite Heq, Hlayer. cbn. rewrite lookup_insert_eq, stateIndex_initialize_loop.
    f_equal. apply Nat.le_antisymm.
    + apply (Hlast (length l) tState); [| done].
      by rewrite lookup_app_r, Nat.sub_diag.
    + apply lookup_lt_Some in Hl. rewrite length_app in Hl. cbn in Hl. lia.
  - assert (Hin : l !! index = Some t).
    { apply lookup_app_Some in Hl as [? | [? Hl]]; [done |].
      apply list_lookup_singleton_Some in Hl as [_ ->]. done. }
    assert (IH' : loop_accessIndex (initialize_loop state ai0 l) !! surface
                  = Some index).
    { apply IH. split; [by eauto |]. intros j t' Hj Hs.
      apply (Hlast j t'); [| done]. by apply lookup_app_l_Some. }
    destruct (resolveLayer state (getSurface tState)); cbn; [| done].
    by rewrite lookup_insert_ne.
Qed.

Lemma resolved_entries_elem state l layer surface :
  (layer, surface) ∈ resolved_entries state l
  <-> (exists tState, tState ∈ l /\ getSurface tState = surface)
      /\ resolveLayer state surface = Some layer.
Proof.
  unfold resolved_entries. rewrite list_elem_of_omap. split.
  - intros (t & Hin & Hentry).
    destruct (resolveLayer state (getSurface t)) as [layer' |] eqn:Hlayer;
      cbn in Hentry; [| done].
    injection Hentry as <- <-. eauto.
  - intros [(t & Hin & <-) Hlayer]. exists t. split; [done |].
    by rewrite Hlayer.
Qed.

Lemma layer_unresolved_None state surface :
  layer_unresolved state surface -> resolveLayer state surface = None.
Proof.
  unfold layer_unresolved, resolveLayer. intros [-> Hfail].
  destruct (valid _) eqn:Hvalid; [| done].
  destruct (worldVolume (navigation state)) as [world |] eqn:Hworld; [| done].
  destruct Hfail as [? | [? | (world' & [= <-] & Hlayer)]]; [done | done |].
  by destruct (trackingVolume world _).
Qed.

Lemma entries_of_unresolved state ai0 l surface :
  resolveLayer state surface = None ->
  entries_of surface (measurementSurfaces (initialize_loop state ai0 l)) = [].
Proof.
  intros Hnone. apply elem_of_nil_inv. intros [layer surface'] Hin.
  apply list_elem_of_filter in Hin as [Heq Hin]. cbn in Heq. subst surface'.
  rewrite measurementSurfaces_perm in Hin.
  apply resolved_entries_elem in Hin as [_ Hsome]. congruence.
Qed.

Lemma resolved_entries_cons state tState l :
  resolved_entries state (tState :: l)
  = match resolveLayer state (getSurface tState) with
    | Some layer => (layer, getSurface tState) :: resolved_entries state l
    | None => resolved_entries state l
    end.
Proof.
  unfold resolved_entries. cbn.
  by destruct (resolveLayer state (getSurface tState)).
Qed.


(** *** update and operator() *)

Lemma update_known actor surface state result index tState :
  accessIndex result !! surface = Some index ->
  fittedStates result !! index = Some tState ->
  update actor surface state result
  = Some (set_stepping
            (correct_stepping
               (m_updator actor tState (bind surface true (stepping state)).1).2
               (bind surface true (stepping state)).2)
            state,
          count_processed result).
Proof.
  intros Hindex Hstate. unfold update. rewrite Hindex.
  destruct (bind surface true (stepping state)) as [boundState bound].
  rewrite Hstate. cbn [fst snd].
  by destruct (m_updator actor tState boundState).
Qed.

Lemma update_unknown actor surface state result :
  accessIndex result !! surface = None ->
  update actor surface state result = Some (state, result).
Proof. intros Hnone. unfold update. by rewrite Hnone. Qed.

(** After the first call the buffer is not empty, and [operator()] is
    the update at the reported surface. *)
Lemma operator_call_active actor state result :
  fittedStates result <> [] ->
  operator_call actor state result
  = match currentSurface (navigation state) with
    | Some surface => update actor surface state result
    | None => Some (state, result)
    end.
Proof.
  intros Hne. unfold operator_call.
  destruct (fittedStates result) as [| t l] eqn:Hfitted; [done |].
  destruct (currentSurface (navigation state)) as [surface |].
  - destruct (update actor surface state result) as [[state' result'] |]; [| done].
    by destruct (all_handled actor result').
  - by destruct (all_handled actor result).
Qed.

(** [operator()] writes the stepping state and the external surfaces,
    nothing else of the propagator state. *)
Lemma operator_call_frame actor state result state' result' :
  operator_call actor state result = Some (state', result') ->
  engine state' = engine state
  /\ currentSurface (navigation state') = currentSurface (navigation state)
  /\ worldVolume (navigation state') = worldVolume (navigation state).
Proof.
  unfold operator_call.
  set (init := match fittedStates result with
               | [] => initialize actor state result
               | _ :: _ => (state, result)
               end).
  assert (Hinit : engine init.1 = engine state
                  /\ currentSurface (navigation init.1) = currentSurface (navigation state)
                  /\ worldVolume (navigation init.1) = worldVolume (navigation state)).
  { subst init. by destruct (fittedStates result). }
  destruct init as [state1 result1]. cbn [fst] in Hinit.
  destruct Hinit as (<- & <- & <-).
  assert (Hupd : forall surface st r,
             update actor surface state1 result1 = Some (st, r) ->
             engine st = engine state1 /\ navigation st = navigation state1).
  { intros surface st r. unfold update.
    destruct (accessIndex result1 !! surface); [| by intros [= <- <-]].
    destruct (bind surface true (stepping state1)) as [boundState bound].
    destruct (fittedStates result1 !! n); [| done].
    destruct (m_updator actor t boundState). by intros [= <- <-]. }
  destruct (currentSurface (navigation state1)) as [surface |] eqn:Hsurface.
  - destruct (update actor surface state1 result1) as [[st r] |] eqn:Hu; [| done].
    destruct (Hupd _ _ _ Hu) as [He Hn].
    destruct (all_handled actor r); intros [= <- <-]; by rewrite He, Hn.
  - destruct (all_handled actor result1); intros [= <- <-]; by rewrite Hsurface.
Qed.

(** *** initialize on a fresh result *)

Lemma resolved_entries_all state l layers :
  Forall2 (fun tState layer => resolveLayer state (getSurface tState) = Some layer)
          l layers ->
  (resolved_entries state l).*1 = layers
  /\ (resolved_entries state l).*2 = getSurface <$> l.
Proof.
  induction 1 as [| t layer l layers Hlayer _ [IH1 IH2]]; [done |].
  rewrite resolved_entries_cons, Hlayer. cbn. by rewrite IH1, IH2.
Qed.

(** States on pairwise different layers are on pairwise different
    surfaces. *)
Lemma distinct_layers_surfaces state l layers :
  Forall2 (fun tState layer => resolveLayer state (getSurface tState) = Some layer)
          l layers ->
  NoDup layers -> NoDup (getSurface <$> l).
Proof.
  induction 1 as [| t layer l layers Hlayer Hrest IH]; intros Hnd; cbn.
  - constructor.
  - apply NoDup_cons in Hnd as [Hnotin Hnd]. constructor; [| by apply IH].
    intros Hin. apply list_elem_of_fmap in Hin as (t' & Hsurf & Hin').
    apply list_elem_of_lookup in Hin' as [i Hi].
    destruct (Forall2_lookup_l _ _ _ _ _ Hrest Hi) as (layer' & Hlookup & Hlayer').
    rewrite <- Hsurf, Hlayer in Hlayer'. injection Hlayer' as <-.
    apply Hnotin. by apply list_elem_of_lookup_2 in Hlookup.
Qed.

Lemma distinct_layers_resolved state l tState :
  distinct_layers state l -> tState ∈ l ->
  is_Some (resolveLayer state (getSurface tState)).
Proof.
  intros (layers & _ & Hall) Hin.
  apply list_elem_of_lookup in Hin as [i Hi].
  destruct (Forall2_lookup_l _ _ _ _ _ Hall Hi) as (layer & _ & Hlayer). eauto.
Qed.

(** C5, as amended: for N states whose surfaces resolve to pairwise
    different layers, [initialize] gives an accessIndex of size N and a
    multimap of N entries; for every permutation of the input order the
    multimap and the key set of accessIndex are the same, and accessIndex
    sends the surface of each state to the position that the state has in
    that order. *)
Theorem initialize_distinct_layers updator state (states states' : list TrackState) :
  distinct_layers state states ->
  states ≡ₚ states' ->
  let init := initialize (mkActor states updator) state fresh_result in
  let init' := initialize (mkActor states' updator) state fresh_result in
  size (accessIndex init.2) = length states
  /\ length (externalSurfaces (navigation init.1)) = length states
  /\ externalSurfaces (navigation init'.1) = externalSurfaces (navigation init.1)
  /\ dom (accessIndex init'.2) = dom (accessIndex init.2)
  /\ forall index tState,
       states' !! index = Some tState ->
       accessIndex init'.2 !! getSurface tState = Some index.
Proof.
  intros Hdistinct Hperm. pose proof Hdistinct as (layers & Hnd & Hall).
  destruct (resolved_entries_all _ _ _ Hall) as [Hkeys Hvalues].
  pose proof (distinct_layers_surfaces _ _ _ Hall Hnd) as Hsurfaces.
  cbn [initialize fst snd accessIndex navigation externalSurfaces
       set_externalSurfaces trackStates fresh_result].
  assert (Hentries : resolved_entries state states' ≡ₚ resolved_entries state states).
  { unfold resolved_entries. by rewrite Hperm. }
  repeat split.
  - rewrite <- size_dom, dom_initialize_loop, dom_empty_L, (left_id_L ∅ (∪)).
    rewrite Hvalues, size_list_to_set by done. by rewrite length_fmap.
  - rewrite measurementSurfaces_perm.
    rewrite <- (length_fmap fst), Hkeys. symmetry. by eapply Forall2_length.
  - assert (Hnd' : NoDup (measurementSurfaces (initialize_loop state ∅ states)).*1).
    { by rewrite measurementSurfaces_perm, Hkeys. }
    apply (Sorted_unique key_lt).
    + apply sorted_key_lt; [apply measurementSurfaces_sorted |].
      by rewrite measurementSurfaces_perm, Hentries, Hkeys.
    + apply sorted_key_lt; [apply measurementSurfaces_sorted | done].
    + by rewrite !measurementSurfaces_perm.
  - rewrite !dom_initialize_loop. f_equal. apply set_eq. intros surface.
    rewrite !elem_of_list_to_set. by rewrite Hentries.
  - intros index tState Hlookup. apply accessIndex_last.
    + apply (distinct_layers_resolved _ states); [done |].
      rewrite Hperm. by eapply list_elem_of_lookup_2.
    + split; [by eauto |]. intros j t' Hj Hsame.
      assert (Hnd' : NoDup (getSurface <$> states')) by by rewrite <- Hperm.
      assert (j = index); [| lia].
      apply (NoDup_lookup _ _ _ (getSurface tState) Hnd').
      * by rewrite list_lookup_fmap, Hj, <- Hsame.
      * by rewrite list_lookup_fmap, Hlookup.
Qed.

(** C6: a state whose surface has no layer back reference and whose
    layer the geometry search does not resolve is, after [initialize],
    not a key of accessIndex, not the state at any stored index and not
    in the multimap; [update] at its surface changes nothing. *)
Theorem initialize_unresolved_absent actor state tState :
  tState ∈ trackStates actor ->
  layer_unresolved state (getSurface tState) ->
  let init := initialize actor state fresh_result in
  accessIndex init.2 !! getSurface tState = None
  /\ (forall surface index,
        accessIndex init.2 !! surface = Some index ->
        fittedStates init.2 !! index <> Some tState)
  /\ entries_of (getSurface tState) (externalSurfaces (navigation init.1)) = []
  /\ forall state', update actor (getSurface tState) state' init.2 = Some (state', init.2).
Proof.
  intros _ Hunresolved%layer_unresolved_None.
  cbn [initialize fst snd accessIndex fittedStates navigation externalSurfaces
       set_externalSurfaces fresh_result].
  assert (Habsent : loop_accessIndex (initialize_loop state ∅ (trackStates actor))
                      !! getSurface tState = None).
  { destruct (_ !! getSurface tState) as [index |] eqn:Hfound; [| done].
    apply accessIndex_found in Hfound as [Hempty | (t & _ & _ & [layer Hlayer])].
    - by rewrite lookup_empty in Hempty.
    - congruence. }
  repeat split.
  - done.
  - intros surface index Hfound Hstate.
    apply accessIndex_found in Hfound as [Hempty | (t & Hl & Hsurf & [layer Hlayer])].
    + by rewrite lookup_empty in Hempty.
    + rewrite Hstate in Hl. injection Hl as <-. congruence.
  - by apply entries_of_unresolved.
  - intros state'. by apply update_unknown.
Qed.

(** C9: every index that [initialize] stores in accessIndex is the
    position of a state on that surface, hence below the length of
    fittedStates, and the indexed access of [update] is defined. *)
Theorem initialize_index_in_bounds actor state surface index :
  let result := (initialize actor state fresh_result).2 in
  accessIndex result !! surface = Some index ->
  index < length (fittedStates result)
  /\ (exists tState,
        fittedStates result !! index = Some tState /\ getSurface tState = surface)
  /\ forall state', is_Some (update actor surface state' result).
Proof.
  cbn [initialize snd accessIndex fittedStates fresh_result].
  intros Hfound.
  pose proof Hfound as [Hempty | (t & Hl & Hsurf & _)]%accessIndex_found.
  { by rewrite lookup_empty in Hempty. }
  split; [by eapply lookup_lt_Some |]. split; [by eauto |].
  intros state'. erewrite update_known; [by eauto | exact Hfound | exact Hl].
Qed.


(** C3: at a surface found in accessIndex, when the updator returns no
    parameters, [update] returns normally, processedStates is incremented
    once, and the stepping state is the one that [bind] left: position,
    direction, momentum and covariance as transported. *)
Theorem update_rejected actor surface state result index tState :
  accessIndex result !! surface = Some index ->
  fittedStates result !! index = Some tState ->
  (m_updator actor tState (bind surface true (stepping state)).1).2 = None ->
  exists state' result',
    update actor surface state result = Some (state', result')
    /\ processedStates result' = size_t_incr (processedStates result)
    /\ stepping state' = (bind surface true (stepping state)).2
    /\ fittedStates result' = fittedStates result
    /\ accessIndex result' = accessIndex result.
Proof.
  intros Hindex Hstate Hrejected.
  eexists _, _. split; [by apply (update_known _ _ _ _ index tState) |].
  rewrite Hrejected. by cbn.
Qed.

(** C7: after initialization (fittedStates holds the trajectory, or the
    trajectory is empty), an invocation that reports a surface which is
    not a key of accessIndex returns normally with the result object as
    it was (processedStates, fittedStates, accessIndex) and with the
    stepping state as it was. *)
Theorem operator_call_unknown_surface actor state result surface :
  fittedStates result <> [] \/ trackStates actor = [] ->
  currentSurface (navigation state) = Some surface ->
  accessIndex result !! surface = None ->
  exists state',
    operator_call actor state result = Some (state', result)
    /\ stepping state' = stepping state
    /\ engine state' = engine state
    /\ (fittedStates result <> [] -> state' = state).
Proof.
  intros Hinit Hsurface Hnone.
  destruct (fittedStates result) as [| t l] eqn:Hfitted.
  - destruct Hinit as [? | Hempty]; [done |].
    exists (set_externalSurfaces [] state). split; [| done].
    unfold operator_call. rewrite Hfitted. unfold initialize. rewrite Hempty.
    cbn [initialize_loop foldl measurementSurfaces loop_accessIndex
         set_externalSurfaces navigation currentSurface].
    rewrite Hsurface. unfold update. cbn [accessIndex]. rewrite Hnone.
    destruct result as [fitted processed index]. cbn in Hfitted. subst fitted.
    cbn [processedStates accessIndex]. by destruct (all_handled _ _).
  - exists state. split; [| done].
    rewrite operator_call_active, Hsurface by (by rewrite Hfitted).
    by apply update_unknown.
Qed.

(** C8, as amended: when the same measurement surface is reported on two
    invocations, the actor runs the update on both, increments
    processedStates on both, and reports nothing to the engine. *)
Theorem operator_call_revisit actor state1 state2 result surface index tState :
  currentSurface (navigation state1) = Some surface ->
  currentSurface (navigation state2) = Some surface ->
  accessIndex result !! surface = Some index ->
  fittedStates result !! index = Some tState ->
  exists state1' result1 state2' result2,
    operator_call actor state1 result = Some (state1', result1)
    /\ operator_call actor state2 result1 = Some (state2', result2)
    /\ processedStates result2 = size_t_incr (size_t_incr (processedStates result))
    /\ stepping state2'
       = correct_stepping
           (m_updator actor tState (bind surface true (stepping state2)).1).2
           (bind surface true (stepping state2)).2
    /\ engine state1' = engine state1
    /\ engine state2' = engine state2.
Proof.
  intros Hs1 Hs2 Hindex Hstate.
  assert (Hfilled : fittedStates result <> []).
  { intros Hnil. by rewrite Hnil in Hstate. }
  eexists _, _, _, _. split.
  { rewrite operator_call_active, Hs1 by done.
    by apply (update_known _ _ _ _ index tState). }
  split.
  { rewrite operator_call_active, Hs2 by done.
    by apply (update_known _ _ _ _ index tState). }
  by cbn.
Qed.

(** Whatever is reported, a run leaves the engine's own state alone. *)
Lemma propagate_engine actor reports state result state' result' :
  propagate actor reports state result = Some (state', result') ->
  engine state' = engine state.
Proof.
  revert state result. induction reports as [| surface reports IH];
    intros state result; cbn [propagate].
  - by intros [= <- <-].
  - destruct (operator_call actor (report surface state) result)
      as [[state1 result1] |] eqn:Hcall; [| done].
    intros Hrun. rewrite (IH _ _ Hrun).
    by destruct (operator_call_frame _ _ _ _ _ Hcall) as (-> & _ & _).
Qed.

End KalmanActorFacts.

(* ===================================================================== *)
(** ** The actor on the telescope *)
(* ===================================================================== *)

Section TelescopeRuns.
Import KalmanActor Telescope.

(** C1 on five states on five surfaces, each reported once in
    trajectory order: after the fifth step processedStates is 5 and the
    comparison of line 98 holds, but the stop flag of the engine is as it
    was; after four steps the count is 4. *)
Theorem five_states_no_stop_signal :
  outcome (actor_of five_states)
          (propagate (actor_of five_states) five_reports state0 fresh_result)
  = Some (5%N, true, engine state0)
  /\ outcome (actor_of five_states)
             (propagate (actor_of five_states) (take 4 five_reports) state0
                        fresh_result)
     = Some (4%N, false, engine state0).
Proof. split; vm_compute; reflexivity. Qed.

(** The run with the rejected third measurement: all five states are
    counted, and after the third step the stepping state is the one that
    [bind] left at surface 13. *)
Lemma five_states_reject3_run :
  outcome (actor_of five_states_reject3)
          (propagate (actor_of five_states_reject3) five_reports state0 fresh_result)
  = Some (5%N, true, engine state0)
  /\ (fun x => stepping x.1)
       <$> propagate (actor_of five_states_reject3) (take 3 five_reports) state0
                     fresh_result
     = (fun x => (bind 13 true (stepping x.1)).2)
         <$> propagate (actor_of five_states_reject3) (take 2 five_reports) state0
                       fresh_result.
Proof. split; vm_compute; reflexivity. Qed.

Lemma update_rejected_witness :
  exists state' result',
    update (actor_of five_states_reject3) 13 (at_surface 13) five_initialized
    = Some (state', result')
    /\ processedStates result' = size_t_incr (processedStates five_initialized)
    /\ stepping state' = (bind 13 true (stepping (at_surface 13))).2
    /\ fittedStates result' = fittedStates five_initialized
    /\ accessIndex result' = accessIndex five_initialized.
Proof.
  apply (update_rejected (actor_of five_states_reject3) 13 (at_surface 13)
           five_initialized 2 (13, (-2)%Z));
    vm_compute; reflexivity.
Defined.

Lemma initialize_distinct_layers_witness :
  let init := initialize (actor_of three_states) state0 fresh_result in
  let init' := initialize (actor_of three_states_rotated) state0 fresh_result in
  size (accessIndex init.2) = length three_states
  /\ length (externalSurfaces (navigation init.1)) = length three_states
  /\ externalSurfaces (navigation init'.1) = externalSurfaces (navigation init.1)
  /\ dom (accessIndex init'.2) = dom (accessIndex init.2)
  /\ forall index tState,
       three_states_rotated !! index = Some tState ->
       accessIndex init'.2 !! getSurface tState = Some index.
Proof.
  apply (initialize_distinct_layers (T := types) updator state0
           three_states three_states_rotated).
  - exists [3; 1; 2]. split.
    + apply (bool_decide_unpack _). vm_compute. exact I.
    + repeat constructor.
  - exact (Permutation_cons_append [(11, 2%Z); (12, 3%Z)] (13, 1%Z)).
Defined.

(** C5, as stated, fails on three states and a rotation of them: the
    layers are pairwise different, yet surface 13 is sent to position 0
    in one order and to position 2 in the other. *)
Lemma initialize_permutation_counterexample :
  distinct_layers state0 three_states
  /\ three_states ≡ₚ three_states_rotated
  /\ accessIndex (initialize (actor_of three_states) state0 fresh_result).2 !! 13
     = Some 0
  /\ accessIndex (initialize (actor_of three_states_rotated) state0 fresh_result).2
       !! 13 = Some 2
  /\ accessIndex (initialize (actor_of three_states_rotated) state0 fresh_result).2
     <> accessIndex (initialize (actor_of three_states) state0 fresh_result).2.
Proof.
  split.
  { exists [3; 1; 2]. split; [| repeat constructor].
    apply (bool_decide_unpack _). vm_compute. exact I. }
  split.
  { exact (Permutation_cons_append [(11, 2%Z); (12, 3%Z)] (13, 1%Z)). }
  split; [vm_compute; reflexivity |]. split; [vm_compute; reflexivity |].
  intros Heq. apply (f_equal (fun m : gmap Surface nat => m !! 13)) in Heq.
  vm_compute in Heq. discriminate.
Qed.

Lemma initialize_unresolved_absent_witness :
  let init := initialize (actor_of mixed_states) state0 fresh_result in
  accessIndex init.2 !! 31 = None
  /\ (forall surface index,
        accessIndex init.2 !! surface = Some index ->
        fittedStates init.2 !! index <> Some (31, 3%Z))
  /\ entries_of 31 (externalSurfaces (navigation init.1)) = []
  /\ forall state', update (actor_of mixed_states) 31 state' init.2 = Some (state', init.2).
Proof.
  refine (initialize_unresolved_absent (actor_of mixed_states) state0 (31, 3%Z) _ _).
  - apply (bool_decide_unpack _). vm_compute. exact I.
  - split; [reflexivity |]. left. reflexivity.
Defined.

Lemma operator_call_unknown_surface_witness :
  exists state',
    operator_call (actor_of five_states_reject3) (at_surface 99) five_initialized
    = Some (state', five_initialized)
    /\ stepping state' = stepping (at_surface 99)
    /\ engine state' = engine (at_surface 99)
    /\ (fittedStates five_initialized <> [] -> state' = at_surface 99).
Proof.
  apply (operator_call_unknown_surface _ (at_surface 99) five_initialized 99).
  - left. vm_compute. discriminate.
  - reflexivity.
  - vm_compute. reflexivity.
Defined.

Lemma operator_call_revisit_witness :
  exists state1' result1 state2' result2,
    operator_call (actor_of five_states_reject3) (at_surface 11) five_initialized
    = Some (state1', result1)
    /\ operator_call (actor_of five_states_reject3) (at_surface 11) result1
       = Some (state2', result2)
    /\ processedStates result2
       = size_t_incr (size_t_incr (processedStates five_initialized))
    /\ stepping state2'
       = correct_stepping
           (m_updator (actor_of five_states_reject3) (11, 5%Z)
              (bind 11 true (stepping (at_surface 11))).1).2
           (bind 11 true (stepping (at_surface 11))).2
    /\ engine state1' = engine (at_surface 11)
    /\ engine state2' = engine (at_surface 11).
Proof.
  apply (operator_call_revisit (actor_of five_states_reject3)
           (at_surface 11) (at_surface 11) five_initialized 11 0 (11, 5%Z));
    vm_compute; reflexivity.
Defined.

(** C8, as stated, fails on a trajectory of one state whose surface is
    reported twice: the run ends normally with processedStates at 2, and
    the engine's state was not touched. *)
Lemma revisit_counterexample :
  outcome (actor_of one_state)
          (propagate (actor_of one_state) revisit_reports state0 fresh_result)
  = Some (2%N, false, engine state0).
Proof. vm_compute. reflexivity. Qed.

Lemma initialize_index_in_bounds_witness :
  accessIndex five_initialized !! 13 = Some 2
  /\ 2 < length (fittedStates five_initialized)
  /\ (exists tState,
        fittedStates five_initialized !! 2 = Some tState /\ getSurface tState = 13)
  /\ forall state',
       is_Some (update (actor_of five_states_reject3) 13 state' five_initialized).
Proof.
  split; [vm_compute; reflexivity |].
  apply (initialize_index_in_bounds (actor_of five_states_reject3) state0 13 2).
  vm_compute. reflexivity.
Defined.



End TelescopeRuns.

(* ===================================================================== *)
(** ** More on GeometryID: fields as a partition of the 64 bits *)
(* ===================================================================== *)

Section GeometryIDFields.
Import GeometryID.
Local Open Scope Z_scope.

Ltac unfold_field_shifts :=
  cbv [shift_of width_of volume_shift boundary_shift layer_shift
       approach_shift sensitive_shift channel_shift].

Lemma window_wrap64 y s w :
  0 <= s -> 0 <= w -> s + w <= 64 ->
  window (wrap64 y) s w = window y s w.
Proof.
  intros Hs Hw H64. unfold window, wrap64.
  apply Z.bits_inj'. intros n Hn.
  rewrite !Z.shiftr_spec, !Z.land_spec, !Z.shiftl_spec by lia.
  replace (n + s - s) with n by lia.
  destruct (Z.ltb_spec n w) as [Hlt | Hge].
  - by rewrite Z.mod_pow2_bits_low by lia.
  - rewrite Z.ones_spec_high by lia. by rewrite !andb_false_r.
Qed.

Lemma fields_cover x :
  0 <= x < 2 ^ 64 ->
  x = window x 56 8 * 2 ^ 56 + window x 48 8 * 2 ^ 48
      + window x 40 8 * 2 ^ 40 + window x 32 8 * 2 ^ 32
      + window x 16 16 * 2 ^ 16 + window x 0 16.
Proof.
  intros Hx. rewrite !window_div_mod by lia.
  change (2 ^ 64) with 18446744073709551616 in Hx.
  change (2 ^ 56) with 72057594037927936.
  change (2 ^ 48) with 281474976710656.
  change (2 ^ 40) with 1099511627776.
  change (2 ^ 32) with 4294967296.
  change (2 ^ 16) with 65536.
  change (2 ^ 8) with 256.
  change (2 ^ 0) with 1.
  Z.div_mod_to_equations. lia.
Qed.

(** What [value] reads through a field's mask and shift fits the width
    of the field. *)
Theorem value_field_bounded v f :
  0 <= value v (mask_of f) (shift_of f) < 2 ^ width_of f.
Proof.
  rewrite value_window.
  destruct (field_geometry f) as (? & ? & ?). apply window_bound; lia.
Qed.

(** The six fields cover the identifier: a 64-bit value is the sum of
    its field values, each shifted back to its place. *)
Theorem value_fields_decompose v :
  valid v ->
  m_value v
  = value v volume_mask volume_shift * 2 ^ volume_shift
    + value v boundary_mask boundary_shift * 2 ^ boundary_shift
    + value v layer_mask layer_shift * 2 ^ layer_shift
    + value v approach_mask approach_shift * 2 ^ approach_shift
    + value v sensitive_mask sensitive_shift * 2 ^ sensitive_shift
    + value v channel_mask channel_shift * 2 ^ channel_shift.
Proof.
  intros Hv.
  pose proof (fields_cover (m_value v) Hv) as Hcover.
  pose proof (value_window v Volume) as E1.
  pose proof (value_window v Boundary) as E2.
  pose proof (value_window v Layer) as E3.
  pose proof (value_window v Approach) as E4.
  pose proof (value_window v Sensitive) as E5.
  pose proof (value_window v Channel) as E6.
  cbn [mask_of shift_of width_of] in E1, E2, E3, E4, E5, E6.
  rewrite E1, E2, E3, E4, E5, E6.
  unfold_field_shifts. change (2 ^ 0) with 1. rewrite Z.mul_1_r. exact Hcover.
Qed.

Lemma value_fields_decompose_witness :
  m_value (mkGeometryID 0x0102030400050006)
  = value (mkGeometryID 0x0102030400050006) volume_mask volume_shift * 2 ^ volume_shift
    + value (mkGeometryID 0x0102030400050006) boundary_mask boundary_shift
      * 2 ^ boundary_shift
    + value (mkGeometryID 0x0102030400050006) layer_mask layer_shift * 2 ^ layer_shift
    + value (mkGeometryID 0x0102030400050006) approach_mask approach_shift
      * 2 ^ approach_shift
    + value (mkGeometryID 0x0102030400050006) sensitive_mask sensitive_shift
      * 2 ^ sensitive_shift
    + value (mkGeometryID 0x0102030400050006) channel_mask channel_shift
      * 2 ^ channel_shift.
Proof.
  apply (value_fields_decompose (mkGeometryID 0x0102030400050006)).
  unfold valid. vm_compute. split; [discriminate | reflexivity].
Defined.

(** Two valid identifiers that agree on all six fields are the same
    identifier. *)
Theorem value_fields_injective v w :
  valid v -> valid w ->
  (forall f, value v (mask_of f) (shift_of f) = value w (mask_of f) (shift_of f)) ->
  v = w.
Proof.
  intros Hv Hw Hsame. destruct v as [x], w as [y]. f_equal.
  unfold valid in Hv, Hw. cbn [m_value] in Hv, Hw.
  rewrite (fields_cover x Hv), (fields_cover y Hw).
  pose proof (Hsame Volume) as H1. pose proof (Hsame Boundary) as H2.
  pose proof (Hsame Layer) as H3. pose proof (Hsame Approach) as H4.
  pose proof (Hsame Sensitive) as H5. pose proof (Hsame Channel) as H6.
  rewrite !value_window in H1, H2, H3, H4, H5, H6.
  cbn [m_value] in H1, H2, H3, H4, H5, H6.
  revert H1 H2 H3 H4 H5 H6. unfold_field_shifts. by intros -> -> -> -> -> ->.
Qed.

Lemma value_fields_injective_witness :
  mkGeometryID (0x0100000000000000 + 0x0000000000000002)
  = mkGeometryID 0x0100000000000002.
Proof.
  apply (value_fields_injective
           (mkGeometryID (0x0100000000000000 + 0x0000000000000002))
           (mkGeometryID 0x0100000000000002)).
  - unfold valid. vm_compute. split; [discriminate | reflexivity].
  - unfold valid. vm_compute. split; [discriminate | reflexivity].
  - intros f. destruct f; reflexivity.
Defined.

(** Adding [x], shifted to the place of a field, adds [x] to what
    [value] reads from that field, as long as the sum fits the field. *)
Theorem value_plus_assign_same_field v f x :
  0 <= x ->
  value v (mask_of f) (shift_of f) + x < 2 ^ width_of f ->
  value (plus_assign v (Z.shiftl x (shift_of f))) (mask_of f) (shift_of f)
  = value v (mask_of f) (shift_of f) + x.
Proof.
  rewrite !value_window. cbn [plus_assign m_value].
  destruct (field_geometry f) as (Hs & Hw & H64).
  intros Hx Hfits.
  pose proof (window_bound (m_value v) (shift_of f) (width_of f) Hs ltac:(lia)).
  rewrite window_wrap64 by lia.
  rewrite window_div_mod in Hfits, H by lia.
  rewrite !window_div_mod by lia.
  rewrite Z.shiftl_mul_pow2 by lia.
  rewrite Z.div_add by (apply Z.pow_nonzero; lia).
  rewrite <- Z.add_mod_idemp_l by (apply Z.pow_nonzero; lia).
  apply Z.mod_small. lia.
Qed.

Lemma value_plus_assign_same_field_witness :
  value (plus_assign (mkGeometryID 0x0102030400050006)
                     (Z.shiftl 3 (shift_of Layer)))
        (mask_of Layer) (shift_of Layer)
  = value (mkGeometryID 0x0102030400050006) (mask_of Layer) (shift_of Layer) + 3.
Proof.
  apply (value_plus_assign_same_field (mkGeometryID 0x0102030400050006) Layer 3).
  - lia.
  - vm_compute. reflexivity.
Defined.

(** [+=] keeps the value inside 64 bits whatever is added, two
    additions are one addition of the sum, and adding an identifier is
    adding its raw value. *)
Theorem plus_assign_compose v a b w :
  valid (plus_assign v a)
  /\ plus_assign (plus_assign v a) b = plus_assign v (a + b)
  /\ plus_assign_id v w = plus_assign v (value w 0 0).
Proof.
  split; [| split].
  - unfold valid, plus_assign, wrap64. cbn [m_value].
    apply Z.mod_pos_bound. reflexivity.
  - unfold plus_assign, wrap64. cbn [m_value]. f_equal.
    rewrite Z.add_mod_idemp_l by discriminate. f_equal. lia.
  - reflexivity.
Qed.

End GeometryIDFields.

(* ===================================================================== *)
(** ** Facts about Identifier *)
(* ===================================================================== *)

Section IdentifierFacts.
Import Identifier.
Local Open Scope Z_scope.

Lemma max_value_ones : max_value = Z.ones 64.
Proof. reflexivity. Qed.

Lemma in_64_bits x : 0 <= x < 2 ^ 64 <-> Z.land x (Z.ones 64) = x.
Proof.
  rewrite Z.land_ones by lia. split.
  - intros Hx. by apply Z.mod_small.
  - intros <-. apply Z.mod_pos_bound. reflexivity.
Qed.

Lemma land_lor_absorb a b : Z.land (Z.lor a b) b = b.
Proof.
  apply Z.bits_inj'. intros n _. rewrite Z.land_spec, Z.lor_spec.
  by destruct (Z.testbit a n), (Z.testbit b n).
Qed.

Lemma lor_land_absorb a b : Z.lor (Z.land a b) b = b.
Proof.
  apply Z.bits_inj'. intros n _. rewrite Z.lor_spec, Z.land_spec.
  by destruct (Z.testbit a n), (Z.testbit b n).
Qed.

(** A default-constructed identifier is not valid and [|=] cannot make it
    valid; [&=] on it stores the operand. *)
Theorem default_identifier value :
  0 <= value < 2 ^ 64 ->
  is_valid default = false
  /\ is_valid (or_assign default value) = false
  /\ and_assign default value = from_value value.
Proof.
  intros Hvalue%in_64_bits. split; [reflexivity |].
  unfold is_valid, or_assign, and_assign, default, from_value. cbn [m_id].
  rewrite max_value_ones. split.
  - rewrite <- Hvalue, Z.lor_comm, lor_land_absorb. by rewrite Z.eqb_refl.
  - by rewrite Z.land_comm, Hvalue.
Qed.

Lemma default_identifier_witness :
  is_valid default = false
  /\ is_valid (or_assign default 42) = false
  /\ and_assign default 42 = from_value 42.
Proof. apply (default_identifier 42). vm_compute. split; [discriminate | reflexivity]. Defined.

(** The six comparison operators agree with each other: [>] is [<]
    with the operands swapped, [<=] and [>=] are the negations of [>] and
    [<], [!=] is the negation of [==], [==] holds for equal identifiers
    only, and exactly one of [<], [==], [>] holds. *)
Theorem comparisons_consistent a b :
  gtb a b = ltb b a
  /\ leb a b = negb (gtb a b)
  /\ geb a b = negb (ltb a b)
  /\ neqb a b = negb (eqb a b)
  /\ (eqb a b = true <-> a = b)
  /\ (ltb a b, eqb a b, gtb a b)
     ∈ [(true, false, false); (false, true, false); (false, false, true)].
Proof.
  destruct a as [x], b as [y].
  unfold gtb, ltb, leb, geb, neqb, eqb. cbn [m_id].
  rewrite Z.gtb_ltb, Z.geb_leb.
  destruct (Z.ltb_spec y x), (Z.ltb_spec x y), (Z.leb_spec x y),
    (Z.leb_spec y x), (Z.eqb_spec x y); try lia; cbn.
  all: repeat split; try done; try (intros [= ?]; lia); try (intros ->; done).
  all: set_solver.
Qed.

(** [|=] and [&=] keep an identifier inside 64 bits and absorb each
    other: or-ing a value in and then and-ing with it, or the other way
    round, leaves exactly that value. *)
Theorem or_and_absorb id value :
  in_range id -> 0 <= value < 2 ^ 64 ->
  in_range (or_assign id value)
  /\ in_range (and_assign id value)
  /\ and_assign (or_assign id value) value = from_value value
  /\ or_assign (and_assign id value) value = from_value value.
Proof.
  unfold in_range, or_assign, and_assign, from_value. cbn [m_id].
  intros Hid%in_64_bits Hvalue%in_64_bits. repeat split.
  - apply Z.lor_nonneg. rewrite <- Hid, <- Hvalue.
    split; apply Z.land_nonneg; right; by vm_compute.
  - apply in_64_bits. by rewrite Z.land_lor_distr_l, Hid, Hvalue.
  - apply Z.land_nonneg. right. rewrite <- Hvalue.
    apply Z.land_nonneg; right; by vm_compute.
  - apply in_64_bits. by rewrite <- Z.land_assoc, Hvalue.
  - f_equal. apply land_lor_absorb.
  - f_equal. apply lor_land_absorb.
Qed.

Lemma or_and_absorb_witness :
  in_range (or_assign (from_value 0xf0) 0x3c)
  /\ in_range (and_assign (from_value 0xf0) 0x3c)
  /\ and_assign (or_assign (from_value 0xf0) 0x3c) 0x3c = from_value 0x3c
  /\ or_assign (and_assign (from_value 0xf0) 0x3c) 0x3c = from_value 0x3c.
Proof.
  apply (or_and_absorb (from_value 0xf0) 0x3c).
  - unfold in_range. vm_compute. split; [discriminate | reflexivity].
  - vm_compute. split; [discriminate | reflexivity].
Defined.

End IdentifierFacts.

(* ===================================================================== *)
(** ** More on AbstractVolume: the constructed boundary surfaces *)
(* ===================================================================== *)

Section AbstractVolumeBoundaries.
Import AbstractVolume.

(** After construction [boundarySurfaces()] holds one wrapper per surface
    of the decomposition, in the order of the decomposition; an empty
    decomposition gives no boundary surface. *)
Theorem construct_boundarySurfaces this decomposed :
  surfaceRepresentation <$> boundarySurfaces (construct this decomposed)
  = decomposed
  /\ length (boundarySurfaces (construct this decomposed)) = length decomposed
  /\ (decomposed = [] -> boundarySurfaces (construct this decomposed) = []).
Proof.
  unfold boundarySurfaces, construct. cbn [volume_boundarySurfaces].
  rewrite createBoundarySurfaces_unfold. cbn [app].
  split; [| split].
  - rewrite <- list_fmap_compose. apply list_fmap_id.
  - apply length_map.
  - by intros ->.
Qed.

Lemma construct_boundarySurfaces_witness :
  surfaceRepresentation <$> boundarySurfaces (construct 7 cylinderVolumeSurfaces)
  = cylinderVolumeSurfaces
  /\ length (boundarySurfaces (construct 7 cylinderVolumeSurfaces))
     = length cylinderVolumeSurfaces
  /\ (cylinderVolumeSurfaces = []
      -> boundarySurfaces (construct 7 cylinderVolumeSurfaces) = []).
Proof. exact (construct_boundarySurfaces 7 cylinderVolumeSurfaces). Defined.

(** The body of the loop sets exactly one of the two references, to the
    volume itself: [outer] (with [inner] null) exactly when the surface is
    a cylinder, the counter is 3 and there are more than 3 surfaces, and
    [inner] (with [outer] null) in every other case. *)
Theorem wrapSurface_one_side this sfCounter sfNumber sf :
  surfaceRepresentation (wrapSurface this sfCounter sfNumber sf) = sf
  /\ (type sf = Cylinder /\ sfCounter = 3%Z /\ (3 < sfNumber)%Z ->
      inner (wrapSurface this sfCounter sfNumber sf) = None
      /\ outer (wrapSurface this sfCounter sfNumber sf) = Some this)
  /\ (~ (type sf = Cylinder /\ sfCounter = 3%Z /\ (3 < sfNumber)%Z) ->
      inner (wrapSurface this sfCounter sfNumber sf) = Some this
      /\ outer (wrapSurface this sfCounter sfNumber sf) = None).
Proof.
  unfold wrapSurface. split; [reflexivity |]. split.
  - intros (-> & -> & Hmore). cbn.
    destruct (Z.ltb_spec 3 sfNumber); [done | lia].
  - intros Hnot.
    destruct (SurfaceType_eqb (type sf) Cylinder) eqn:Htype; cbn; [| done].
    destruct (Z.eqb_spec sfCounter 3) as [-> | ?]; cbn; [| done].
    destruct (Z.ltb_spec 3 sfNumber); cbn; [| done].
    exfalso. apply Hnot. repeat split; try done. by destruct (type sf).
Qed.

Lemma wrapSurface_one_side_witness :
  (inner (wrapSurface 7 3 4 (mkSurface 103 Cylinder)) = None
   /\ outer (wrapSurface 7 3 4 (mkSurface 103 Cylinder)) = Some 7)
  /\ (inner (wrapSurface 7 2 4 (mkSurface 102 Cylinder)) = Some 7
      /\ outer (wrapSurface 7 2 4 (mkSurface 102 Cylinder)) = None).
Proof.
  split.
  - apply (proj1 (proj2 (wrapSurface_one_side 7 3 4 (mkSurface 103 Cylinder)))).
    split; [reflexivity | split; [reflexivity | lia]].
  - apply (proj2 (proj2 (wrapSurface_one_side 7 2 4 (mkSurface 102 Cylinder)))).
    intros (_ & Hcounter & _). discriminate Hcounter.
Defined.

End AbstractVolumeBoundaries.

(* ===================================================================== *)
(** ** Facts about debugLog *)
(* ===================================================================== *)

Section DebugLogFacts.
Import DebugLog.
Local Open Scope string_scope.

Lemma string_length_app (s1 s2 : string) :
  String.length (s1 ++ s2) = (String.length s1 + String.length s2)%nat.
Proof.
  induction s1 as [| c s1 IH]; [done |].
  change (S (String.length (s1 ++ s2)) = S (String.length s1 + String.length s2)).
  by f_equal.
Qed.

Lemma string_app_assoc (s1 s2 s3 : string) :
  (s1 ++ s2) ++ s3 = s1 ++ s2 ++ s3.
Proof.
  induction s1 as [| c s1 IH]; [done |].
  change (String c ((s1 ++ s2) ++ s3) = String c (s1 ++ s2 ++ s3)).
  by f_equal.
Qed.

Lemma length_spaces n : String.length (spaces n) = n.
Proof.
  induction n as [| n IH]; [done |].
  change (S (String.length (spaces n)) = S n). by f_equal.
Qed.

(** [setw] never cuts: the text comes out whole, behind as many blanks
    as it is shorter than the width. *)
Lemma length_setw width s :
  Z.of_nat (String.length (setw width s))
  = Z.max width (Z.of_nat (String.length s)).
Proof. unfold setw. rewrite string_length_app, length_spaces. lia. Qed.

(** With the debug flag off [debugLog] leaves the options as they are,
    whatever the message producer is. With the flag on it appends one
    line to [debugString], behind what was there: the direction tag, the
    actor's name behind the blanks that fill it to [debugPfxWidth], the
    separator, the message behind the blanks that fill it to
    [debugMsgWidth], and a newline; name and message are never cut, and
    nothing else of the options changes. *)
Theorem debugLog_appends_line navDir_is_forward options logAction :
  let logged := debugLog navDir_is_forward options logAction in
  debug logged = debug options
  /\ debugPfxWidth logged = debugPfxWidth options
  /\ debugMsgWidth logged = debugMsgWidth options
  /\ (debug options = false -> logged = options)
  /\ (debug options = true ->
      debugString logged
      = debugString options
        ++ (if navDir_is_forward then "K->" else "<-K")
        ++ spaces (Z.to_nat (debugPfxWidth options - 11))
        ++ "KalmanActor | "
        ++ spaces (Z.to_nat (debugMsgWidth options
                             - Z.of_nat (String.length (logAction tt))))
        ++ logAction tt ++ newline)
  /\ Z.of_nat (String.length (debugString logged))
     = (Z.of_nat (String.length (debugString options))
        + if debug options
          then 7 + Z.max (debugPfxWidth options) 11
               + Z.max (debugMsgWidth options)
                       (Z.of_nat (String.length (logAction tt)))
          else 0)%Z.
Proof.
  unfold debugLog. destruct (debug options) eqn:Hdebug; cbn zeta.
  - cbn [debug debugString debugPfxWidth debugMsgWidth].
    repeat split; try done.
    + intros _. unfold debugLine, setw.
      rewrite !string_app_assoc. reflexivity.
    + unfold debugLine. rewrite !string_length_app, !Nat2Z.inj_add, !length_setw.
      destruct navDir_is_forward; cbn; lia.
  - rewrite Hdebug. repeat split; try done. lia.
Qed.

Lemma debugLog_appends_line_witness :
  let options := mkOptions true "start" 14 4 in
  let logged := debugLog true options (fun _ => "update") in
  debug logged = debug options
  /\ debugPfxWidth logged = debugPfxWidth options
  /\ debugMsgWidth logged = debugMsgWidth options
  /\ (debug options = false -> logged = options)
  /\ (debug options = true ->
      debugString logged
      = debugString options ++ "K->"
        ++ spaces (Z.to_nat (14 - 11)) ++ "KalmanActor | "
        ++ spaces (Z.to_nat (4 - Z.of_nat (String.length "update")))
        ++ "update" ++ newline)
  /\ Z.of_nat (String.length (debugString logged))
     = (Z.of_nat (String.length (debugString options))
        + if debug options
          then 7 + Z.max (debugPfxWidth options) 11
               + Z.max (debugMsgWidth options) (Z.of_nat (String.length "update"))
          else 0)%Z.
Proof.
  exact (debugLog_appends_line true (mkOptions true "start" 14 4)
           (fun _ => "update")).
Defined.

(** The line of the run above, written out. *)
Lemma debugLog_line_example :
  debugString (debugLog true (mkOptions true "start" 14 4) (fun _ => "update"))
  = "start" ++ "K->" ++ "   KalmanActor | update" ++ newline
  /\ debugString (debugLog false (mkOptions true "" 0 9) (fun _ => "update"))
     = "<-K" ++ "KalmanActor | " ++ "   update" ++ newline.
Proof. split; reflexivity. Qed.

End DebugLogFacts.

(* ===================================================================== *)
(** ** More on the KalmanActor: the indices and whole runs *)
(* ===================================================================== *)

Section KalmanActorRuns.
Import KalmanActor.
Context {T : Types} {C : Collaborators}.

#[local] Instance key_le_trans : Transitive key_le.
Proof. unfold key_le. intros a b c; lia. Qed.

(** *** The order inside the multimap *)

Lemma bucket_singleton layer (kv : Layer * Surface) :
  bucket layer [kv] = if decide (kv.1 = layer) then [kv] else [].
Proof.
  unfold bucket. rewrite (filter_cons (fun kv : Layer * Surface => kv.1 = layer)), filter_nil.
  by case_decide.
Qed.

(** An insertion leaves every other bucket alone and puts the pair at
    the end of its own. *)
Lemma bucket_insert layer kv (m : MeasurementSurfaces) :
  Sorted key_le m ->
  bucket layer (multimap_insert kv m) = bucket layer m ++ bucket layer [kv].
Proof.
  intros Hsorted. apply Sorted_StronglySorted in Hsorted; [| apply _].
  induction Hsorted as [| kv' m Hsorted IH Hall]; cbn [multimap_insert]; [done |].
  destruct (Nat.ltb_spec kv.1 kv'.1) as [Hlt | Hge].
  - rewrite bucket_singleton. unfold bucket at 1.
    rewrite (filter_cons (fun kv : Layer * Surface => kv.1 = layer) kv).
    destruct (decide (kv.1 = layer)) as [Heq | Hne]; [| by rewrite app_nil_r].
    change (kv :: bucket layer (kv' :: m) = bucket layer (kv' :: m) ++ [kv]).
    assert (Hempty : bucket layer (kv' :: m) = []); [| by rewrite Hempty].
    apply elem_of_nil_inv. intros x [Hkey Hin]%list_elem_of_filter.
    apply elem_of_cons in Hin as [-> | Hin]; [lia |].
    rewrite Forall_forall in Hall. specialize (Hall x Hin).
    unfold key_le in Hall. lia.
  - unfold bucket in IH |- *.
    rewrite !(filter_cons (fun kv : Layer * Surface => kv.1 = layer) kv').
    case_decide; cbn [app]; [f_equal |]; exact IH.
Qed.

Lemma bucket_initialize_loop state ai0 l layer :
  bucket layer (measurementSurfaces (initialize_loop state ai0 l))
  = bucket layer (resolved_entries state l).
Proof.
  induction l as [| tState l IH] using rev_ind; [done |].
  rewrite initialize_loop_snoc, resolved_entries_snoc. unfold initialize_step.
  destruct (resolveLayer state (getSurface tState)) as [layer' |];
    cbn [measurementSurfaces].
  - rewrite bucket_insert by apply measurementSurfaces_sorted.
    rewrite IH. unfold bucket.
    by rewrite (filter_app (fun kv : Layer * Surface => kv.1 = layer)).
  - by rewrite app_nil_r.
Qed.

Lemma bucket_resolved_entries state l layer :
  (bucket layer (resolved_entries state l)).*2
  = getSurface
      <$> filter (fun tState => resolveLayer state (getSurface tState) = Some layer) l.
Proof.
  induction l as [| t l IH]; [done |].
  rewrite resolved_entries_cons.
  rewrite (filter_cons
             (fun tState => resolveLayer state (getSurface tState) = Some layer)).
  destruct (resolveLayer state (getSurface t)) as [layer' |] eqn:Hlayer.
  - unfold bucket. rewrite (filter_cons (fun kv : Layer * Surface => kv.1 = layer)).
    cbn [fst]. destruct (decide (layer' = layer)) as [-> | Hne].
    + rewrite decide_True by done. cbn [fmap list_fmap snd]. f_equal. exact IH.
    + rewrite decide_False by congruence. exact IH.
  - rewrite decide_False by done. exact IH.
Qed.

(** The multimap that [initialize] hands to the navigation is sorted by
    layer, and under each layer it lists the surfaces of the states that
    resolve to that layer in the order of the input states. *)
Theorem initialize_multimap_order actor state result layer :
  Sorted key_le (externalSurfaces (navigation (initialize actor state result).1))
  /\ (bucket layer (externalSurfaces (navigation (initialize actor state result).1))).*2
     = getSurface
         <$> filter (fun tState => resolveLayer state (getSurface tState) = Some layer)
                    (trackStates actor).
Proof.
  cbn [initialize fst navigation externalSurfaces set_externalSurfaces].
  split; [apply measurementSurfaces_sorted |].
  by rewrite bucket_initialize_loop, bucket_resolved_entries.
Qed.

(** *** How many entries *)

Lemma length_resolved_entries state l :
  length (resolved_entries state l)
  = length (filter (fun tState => is_Some (resolveLayer state (getSurface tState))) l).
Proof.
  induction l as [| t l IH]; [done |].
  rewrite resolved_entries_cons.
  rewrite (filter_cons
             (fun tState => is_Some (resolveLayer state (getSurface tState)))).
  destruct (resolveLayer state (getSurface t)) as [layer |] eqn:Hlayer.
  - rewrite decide_True by eauto. cbn. by rewrite IH.
  - rewrite decide_False by (by intros [? ?]). done.
Qed.

Lemma size_list_to_set_le (l : list Surface) :
  size (list_to_set l : gset Surface) <= length l.
Proof.
  induction l as [| x l IH]; [done |].
  cbn [list_to_set length]. rewrite size_union_alt, size_singleton.
  assert (size (list_to_set l ∖ {[x]} : gset Surface)
          <= size (list_to_set l : gset Surface)); [| lia].
  apply subseteq_size. intros y Hy. by apply elem_of_difference in Hy as [? _].
Qed.

(** On a fresh result the multimap has one entry per state whose layer
    resolves, and accessIndex has at most that many keys; neither has
    more entries than there are states. *)
Theorem initialize_sizes actor state :
  length (externalSurfaces (navigation (initialize actor state fresh_result).1))
  = length (filter (fun tState => is_Some (resolveLayer state (getSurface tState)))
                   (trackStates actor))
  /\ size (accessIndex (initialize actor state fresh_result).2)
     <= length (externalSurfaces (navigation (initialize actor state fresh_result).1))
  /\ length (externalSurfaces (navigation (initialize actor state fresh_result).1))
     <= length (trackStates actor).
Proof.
  cbn [initialize fst snd navigation externalSurfaces set_externalSurfaces
       accessIndex fresh_result].
  rewrite measurementSurfaces_perm. split; [apply length_resolved_entries |].
  split.
  - rewrite <- size_dom, dom_initialize_loop, dom_empty_L, (left_id_L ∅ (∪)).
    etrans; [apply size_list_to_set_le |]. by rewrite length_fmap.
  - rewrite length_resolved_entries. apply length_filter.
Qed.

(** Every state whose layer resolves has its surface as a key of
    accessIndex and an entry under that layer in the multimap, whatever
    the result held before. *)
Theorem initialize_resolved_present actor state result tState layer :
  tState ∈ trackStates actor ->
  resolveLayer state (getSurface tState) = Some layer ->
  is_Some (accessIndex (initialize actor state result).2 !! getSurface tState)
  /\ (layer, getSurface tState)
     ∈ externalSurfaces (navigation (initialize actor state result).1).
Proof.
  intros Hin Hlayer.
  cbn [initialize fst snd navigation externalSurfaces set_externalSurfaces accessIndex].
  assert (Hentry : (layer, getSurface tState)
                   ∈ resolved_entries state (trackStates actor)).
  { apply resolved_entries_elem. eauto. }
  split.
  - apply elem_of_dom. rewrite dom_initialize_loop.
    apply elem_of_union_r, elem_of_list_to_set, list_elem_of_fmap.
    by exists (layer, getSurface tState).
  - by rewrite measurementSurfaces_perm.
Qed.

(** A back reference to a layer is used as it is, without a look at the
    geometry; without one the layer stays unresolved in exactly the cases
    that [layer_unresolved] lists. *)
Theorem resolveLayer_cases state surface :
  (forall layer,
     associatedLayer surface = Some layer ->
     resolveLayer state surface = Some layer)
  /\ (resolveLayer state surface = None <-> layer_unresolved state surface).
Proof.
  split.
  - intros layer Hback. unfold resolveLayer. by rewrite Hback.
  - split; [| apply layer_unresolved_None].
    unfold resolveLayer, layer_unresolved.
    destruct (associatedLayer surface); [done |]. intros Hnone. split; [done |].
    destruct (valid _); [| by left].
    destruct (worldVolume (navigation state)) as [world |]; [| by right; left].
    right; right. exists world. split; [done |].
    by destruct (trackingVolume world _).
Qed.

(** *** One call *)

(** [operator()] without the comparison that guards nothing. *)
Lemma operator_call_unfold actor state result :
  operator_call actor state result
  = let init := match fittedStates result with
                | [] => initialize actor state result
                | _ :: _ => (state, result)
                end in
    match currentSurface (navigation init.1) with
    | Some surface => update actor surface init.1 init.2
    | None => Some init
    end.
Proof.
  unfold operator_call.
  destruct (match fittedStates result with
            | [] => initialize actor state result
            | _ :: _ => (state, result)
            end) as [state1 result1].
  cbn [fst snd]. destruct (currentSurface (navigation state1)) as [surface |].
  - destruct (update actor surface state1 result1) as [[state2 result2] |]; [| done].
    by destruct (all_handled actor result2).
  - by destruct (all_handled actor result1).
Qed.

Lemma update_in_bounds actor surface state result :
  index_in_bounds result ->
  exists state',
    update actor surface state result
    = Some (state', if is_hit (accessIndex result) (Some surface)
                    then count_processed result else result)
    /\ navigation state' = navigation state
    /\ engine state' = engine state.
Proof.
  intros Hbounds. unfold update, is_hit.
  destruct (accessIndex result !! surface) as [index |] eqn:Hindex.
  - rewrite bool_decide_eq_true_2 by eauto.
    pose proof (map_Forall_lookup_1 _ _ _ _ Hbounds Hindex) as Hlt. cbn in Hlt.
    destruct (lookup_lt_is_Some_2 _ _ Hlt) as [tState Hstate]. rewrite Hstate.
    destruct (bind surface true (stepping state)) as [boundState bound].
    destruct (m_updator actor tState boundState). eauto.
  - rewrite bool_decide_eq_false_2 by (by intros [? ?]). eauto.
Qed.

Lemma index_in_bounds_initialize actor state result :
  fittedStates result = [] -> index_in_bounds result ->
  index_in_bounds (initialize actor state result).2.
Proof.
  intros Hempty Hbounds. unfold index_in_bounds in *.
  cbn [initialize snd accessIndex fittedStates].
  apply map_Forall_lookup_2. intros surface index Hfound.
  apply accessIndex_found in Hfound as [Hold | (t & Hl & _)].
  - pose proof (map_Forall_lookup_1 _ _ _ _ Hbounds Hold) as Hlt.
    rewrite Hempty in Hlt. cbn in Hlt. lia.
  - by eapply lookup_lt_Some.
Qed.

Lemma index_in_bounds_fresh : index_in_bounds fresh_result.
Proof. apply map_Forall_empty. Qed.

(** A call on a result with its indices in bounds returns, and the
    indices of what it returns are in bounds. *)
Lemma operator_call_in_bounds actor state result :
  index_in_bounds result ->
  exists state' result',
    operator_call actor state result = Some (state', result')
    /\ index_in_bounds result'.
Proof.
  intros Hbounds. rewrite operator_call_unfold.
  set (init := match fittedStates result with
               | [] => initialize actor state result
               | _ :: _ => (state, result)
               end).
  assert (Hinit : index_in_bounds init.2).
  { subst init. destruct (fittedStates result) eqn:Hfitted; [| done].
    by apply index_in_bounds_initialize. }
  cbn zeta. destruct (currentSurface (navigation init.1)) as [surface |].
  - destruct (update_in_bounds actor surface init.1 init.2 Hinit)
      as (state' & -> & _).
    eexists _, _. split; [done |]. by destruct (is_hit _ _).
  - exists init.1, init.2. split; [by destruct init | done].
Qed.

Lemma propagate_in_bounds actor reports state result :
  index_in_bounds result -> is_Some (propagate actor reports state result).
Proof.
  revert state result. induction reports as [| surface reports IH];
    intros state result Hbounds; cbn [propagate]; [by eauto |].
  destruct (operator_call_in_bounds actor (report surface state) result Hbounds)
    as (state' & result' & -> & Hbounds').
  by apply IH.
Qed.

(** A fit that starts on a default-constructed result never reads
    [fittedStates] out of range, whatever surfaces the navigation reports
    and however long it goes on: every step returns. *)
Theorem propagate_total actor reports state :
  is_Some (propagate actor reports state fresh_result).
Proof. apply propagate_in_bounds, index_in_bounds_fresh. Qed.

(** Once the buffer is filled, a call leaves [fittedStates],
    [accessIndex], the navigation and the engine's state as they were;
    processedStates stays or goes up by one. *)
Theorem operator_call_frozen actor state result state' result' :
  fittedStates result <> [] ->
  operator_call actor state result = Some (state', result') ->
  fittedStates result' = fittedStates result
  /\ accessIndex result' = accessIndex result
  /\ navigation state' = navigation state
  /\ engine state' = engine state
  /\ (processedStates result' = processedStates result
      \/ processedStates result' = size_t_incr (processedStates result)).
Proof.
  intros Hfilled. rewrite operator_call_active by done.
  destruct (currentSurface (navigation state)) as [surface |].
  - unfold update. destruct (accessIndex result !! surface) as [index |].
    + destruct (bind surface true (stepping state)) as [boundState bound].
      destruct (fittedStates result !! index) as [tState |]; [| done].
      destruct (m_updator actor tState boundState). intros [= <- <-]. cbn. eauto 10.
    + intros [= <- <-]. eauto 10.
  - intros [= <- <-]. eauto 10.
Qed.

(** *** Whole runs *)

Lemma operator_call_initialized actor state result :
  fittedStates result <> [] -> index_in_bounds result ->
  exists state',
    operator_call actor state result
    = Some (state', if is_hit (accessIndex result) (currentSurface (navigation state))
                    then count_processed result else result)
    /\ navigation state' = navigation state
    /\ engine state' = engine state.
Proof.
  intros Hfilled Hbounds. rewrite operator_call_active by done.
  destruct (currentSurface (navigation state)) as [surface |].
  - by apply update_in_bounds.
  - eauto.
Qed.

Lemma size_t_add_0 n : (n < 2 ^ 64)%N -> size_t_add n 0 = n.
Proof. intros Hn. unfold size_t_add. rewrite N.add_0_r. by apply N.mod_small. Qed.

Lemma size_t_add_incr n k : size_t_add (size_t_incr n) k = size_t_add n (S k).
Proof.
  unfold size_t_add, size_t_incr. rewrite N.Div0.add_mod_idemp_l.
  f_equal. lia.
Qed.

Lemma hits_cons index reported reports :
  hits index (reported :: reports)
  = (if is_hit index reported then 1 else 0) + hits index reports.
Proof.
  unfold hits.
  rewrite (filter_cons (fun reported => is_hit index reported = true)).
  destruct (is_hit index reported).
  - by rewrite decide_True.
  - by rewrite decide_False.
Qed.

Lemma hits_all index reports :
  Forall (fun reported => is_hit index reported = true) reports ->
  hits index reports = length reports.
Proof.
  induction 1 as [| reported reports Hhit _ IH]; [done |].
  rewrite hits_cons, Hhit, IH. done.
Qed.

(** A run on a result whose buffer is filled: the counter goes up by the
    number of steps that report a key of accessIndex, nothing else of the
    result changes, and the navigation keeps its external surfaces. *)
Lemma propagate_initialized actor reports state result :
  fittedStates result <> [] -> index_in_bounds result ->
  (processedStates result < 2 ^ 64)%N ->
  exists state' result',
    propagate actor reports state result = Some (state', result')
    /\ processedStates result'
       = size_t_add (processedStates result) (hits (accessIndex result) reports)
    /\ fittedStates result' = fittedStates result
    /\ accessIndex result' = accessIndex result
    /\ externalSurfaces (navigation state') = externalSurfaces (navigation state)
    /\ engine state' = engine state.
Proof.
  revert state result. induction reports as [| reported reports IH];
    intros state result Hfilled Hbounds Hrange; cbn [propagate].
  - eexists _, _. split; [done |]. by rewrite size_t_add_0.
  - destruct (operator_call_initialized actor (report reported state) result
                Hfilled Hbounds) as (state1 & -> & Hnav & Hengine).
    cbn [report navigation currentSurface] in *.
    rewrite hits_cons. destruct (is_hit (accessIndex result) reported).
    + destruct (IH state1 (count_processed result)) as
        (state' & result' & -> & Hcount & Hfitted & Hindex & Hext & Heng);
        [done | done | apply N.mod_lt; done |].
      eexists _, _. split; [done |].
      cbn [count_processed processedStates accessIndex fittedStates] in *.
      rewrite Hcount, size_t_add_incr, Hext, Hnav, Heng, Hengine. done.
    + destruct (IH state1 result) as
        (state' & result' & -> & Hcount & Hfitted & Hindex & Hext & Heng);
        [done | done | done |].
      eexists _, _. split; [done |].
      rewrite Hcount, Hext, Hnav, Heng, Hengine. done.
Qed.

Lemma initialize_report actor reported state result :
  initialize actor (report reported state) result
  = (report reported (initialize actor state result).1,
     (initialize actor state result).2).
Proof. reflexivity. Qed.

(** The first step of a run on an empty buffer is the step on the
    initialized pair; what the navigation reports plays no part in
    [initialize]. *)
Lemma propagate_first_step actor reported reports state result :
  trackStates actor <> [] -> fittedStates result = [] ->
  propagate actor (reported :: reports) state result
  = propagate actor (reported :: reports)
      (initialize actor state result).1 (initialize actor state result).2.
Proof.
  intros Hstates Hempty. cbn [propagate].
  assert (Hcall : operator_call actor (report reported state) result
                  = operator_call actor
                      (report reported (initialize actor state result).1)
                      (initialize actor state result).2).
  { rewrite operator_call_unfold, Hempty, initialize_report.
    rewrite (operator_call_active actor
               (report reported (initialize actor state result).1)) by done.
    reflexivity. }
  by rewrite Hcall.
Qed.

(** A run of at least one step on a default-constructed result
    initializes once, with the state of the first step: at the end
    [fittedStates] is the actor's trajectory, accessIndex and the external
    surfaces are the ones [initialize] built, and processedStates is the
    number of steps that reported a key of accessIndex. *)
Theorem propagate_from_fresh actor reported reports state :
  trackStates actor <> [] ->
  exists state' result',
    propagate actor (reported :: reports) state fresh_result = Some (state', result')
    /\ fittedStates result' = trackStates actor
    /\ accessIndex result' = accessIndex (initialize actor state fresh_result).2
    /\ externalSurfaces (navigation state')
       = externalSurfaces (navigation (initialize actor state fresh_result).1)
    /\ processedStates result'
       = size_t_add 0 (hits (accessIndex (initialize actor state fresh_result).2)
                            (reported :: reports)).
Proof.
  intros Hstates. rewrite propagate_first_step by done.
  destruct (propagate_initialized actor (reported :: reports)
              (initialize actor state fresh_result).1
              (initialize actor state fresh_result).2)
    as (state' & result' & Hrun & Hcount & Hfitted & Hindex & Hext & _).
  - done.
  - apply index_in_bounds_initialize; [done | apply index_in_bounds_fresh].
  - done.
  - exists state', result'. by rewrite Hrun, Hfitted, Hindex, Hext, Hcount.
Qed.

(** N states on pairwise different layers, each surface reported once
    in whatever order: the run from a default-constructed result ends with
    processedStates at N and the comparison of line 98 true. *)
Theorem propagate_all_reported_once updator state (states : list TrackState) reports :
  distinct_layers state states ->
  reports ≡ₚ (fun tState => Some (getSurface tState)) <$> states ->
  (N.of_nat (length states) < 2 ^ 64)%N ->
  exists state' result',
    propagate (mkActor states updator) reports state fresh_result
    = Some (state', result')
    /\ processedStates result' = N.of_nat (length states)
    /\ all_handled (mkActor states updator) result' = true.
Proof.
  intros Hdistinct Hperm Hrange.
  destruct reports as [| reported reports].
  { symmetry in Hperm. apply Permutation_nil_r, fmap_nil_inv in Hperm.
    subst states. exists state, fresh_result. done. }
  assert (Hstates : states <> []).
  { intros ->. by apply Permutation_nil_r in Hperm. }
  set (actor := mkActor states updator).
  rewrite (propagate_first_step actor) by done.
  destruct (propagate_initialized actor (reported :: reports)
              (initialize actor state fresh_result).1
              (initialize actor state fresh_result).2)
    as (state' & result' & Hrun & Hcount & _).
  - done.
  - apply index_in_bounds_initialize; [done | apply index_in_bounds_fresh].
  - done.
  - exists state', result'. split; [done |].
    assert (Hall : hits (accessIndex (initialize actor state fresh_result).2)
                        (reported :: reports) = length states).
    { rewrite <- (length_fmap (fun tState => Some (getSurface tState)) states).
      rewrite <- Hperm. apply hits_all. rewrite Hperm.
      apply Forall_fmap, Forall_forall. intros tState Hin.
      unfold compose. cbn [is_hit].
      apply bool_decide_eq_true_2, elem_of_dom.
      cbn [initialize snd accessIndex fresh_result]. rewrite dom_initialize_loop.
      destruct (distinct_layers_resolved _ _ _ Hdistinct Hin) as [layer Hlayer].
      apply elem_of_union_r, elem_of_list_to_set, list_elem_of_fmap.
      exists (layer, getSurface tState). split; [done |].
      apply resolved_entries_elem. eauto. }
    rewrite Hcount, Hall. cbn [initialize snd processedStates fresh_result].
    assert (Hn : size_t_add 0 (length states) = N.of_nat (length states)).
    { unfold size_t_add. rewrite N.add_0_l. by apply N.mod_small. }
    split; [done |]. unfold all_handled. cbn [trackStates actor].
    rewrite Hcount, Hall. cbn [initialize snd processedStates fresh_result].
    rewrite Hn. apply N.eqb_refl.
Qed.


(** *** The other paths of update, operator() and initialize *)

(** At a surface found in accessIndex, when the updator returns
    parameters, [update] calls the stepper's [update] with their position,
    the normalized momentum and its norm, then stores their covariance;
    processedStates is incremented once and nothing else is written. *)
Theorem update_accepted actor surface state result index tState par :
  accessIndex result !! surface = Some index ->
  fittedStates result !! index = Some tState ->
  (m_updator actor tState (bind surface true (stepping state)).1).2 = Some par ->
  exists state' result',
    update actor surface state result = Some (state', result')
    /\ processedStates result' = size_t_incr (processedStates result)
    /\ stepping state'
       = set_cov (par_covariance par)
           (stepping_update (par_position par) (normalized (par_momentum par))
              (norm (par_momentum par)) (bind surface true (stepping state)).2)
    /\ cov (stepping state') = par_covariance par
    /\ navigation state' = navigation state
    /\ engine state' = engine state
    /\ fittedStates result' = fittedStates result
    /\ accessIndex result' = accessIndex result.
Proof.
  intros Hindex Hstate Haccepted.
  eexists _, _. split; [by apply (update_known _ _ _ _ index tState) |].
  rewrite Haccepted. by cbn.
Qed.

(** After initialization, a step at which the navigation reports no
    surface returns the result object and the stepping state as they
    were. *)
Theorem operator_call_no_surface actor state result :
  fittedStates result <> [] \/ trackStates actor = [] ->
  currentSurface (navigation state) = None ->
  exists state',
    operator_call actor state result = Some (state', result)
    /\ stepping state' = stepping state
    /\ engine state' = engine state
    /\ (fittedStates result <> [] -> state' = state).
Proof.
  intros Hinit Hnone. rewrite operator_call_unfold.
  destruct (fittedStates result) as [| t l] eqn:Hfitted.
  - destruct Hinit as [? | Hempty]; [done |].
    exists (set_externalSurfaces [] state). split; [| done].
    unfold initialize. rewrite Hempty.
    cbn [initialize_loop foldl measurementSurfaces loop_accessIndex fst snd
         set_externalSurfaces navigation currentSurface].
    rewrite Hnone. destruct result as [fitted processed index].
    cbn in Hfitted. subst fitted. done.
  - exists state. cbn [fst snd]. by rewrite Hnone.
Qed.

Lemma accessIndex_other state ai0 l surface :
  (forall tState,
     tState ∈ l -> getSurface tState = surface ->
     resolveLayer state surface = None) ->
  loop_accessIndex (initialize_loop state ai0 l) !! surface = ai0 !! surface.
Proof.
  induction l as [| tState l IH] using rev_ind; intros Hnone; [done |].
  rewrite initialize_loop_snoc. unfold initialize_step.
  assert (IH' : loop_accessIndex (initialize_loop state ai0 l) !! surface
                = ai0 !! surface).
  { apply IH. intros t Hin. apply Hnone, elem_of_app. by left. }
  destruct (resolveLayer state (getSurface tState)) as [layer |] eqn:Hlayer;
    cbn [loop_accessIndex]; [| done].
  rewrite lookup_insert_ne; [done |]. intros Heq.
  rewrite Heq, (Hnone tState) in Hlayer; [done | | done].
  apply elem_of_app. right. apply list_elem_of_singleton. done.
Qed.

(** [initialize] builds the multimap from nothing but only adds to
    accessIndex: a key that the result held before is still a key, and a
    surface on which no state with a resolved layer lies keeps the entry
    (or the absence of one) that it had. *)
Theorem initialize_keeps_keys actor state result surface :
  dom (accessIndex result) ⊆ dom (accessIndex (initialize actor state result).2)
  /\ ((forall tState,
         tState ∈ trackStates actor -> getSurface tState = surface ->
         resolveLayer state surface = None) ->
      accessIndex (initialize actor state result).2 !! surface
      = accessIndex result !! surface).
Proof.
  cbn [initialize snd accessIndex]. split.
  - rewrite dom_initialize_loop. apply union_subseteq_l.
  - apply accessIndex_other.
Qed.

End KalmanActorRuns.


(* ===================================================================== *)
(** ** Runs on the telescope *)
(* ===================================================================== *)

Section TelescopeWholeRuns.
Import KalmanActor Telescope.

Lemma initialize_resolved_present_witness :
  is_Some (accessIndex (initialize (actor_of mixed_states) state0 fresh_result).2
             !! 21)
  /\ (6, 21)
     ∈ externalSurfaces
         (navigation (initialize (actor_of mixed_states) state0 fresh_result).1).
Proof.
  refine (initialize_resolved_present (actor_of mixed_states) state0 fresh_result
            (21, 4%Z) 6 _ _).
  - apply (bool_decide_unpack _). vm_compute. exact I.
  - vm_compute. reflexivity.
Defined.

Lemma operator_call_frozen_witness :
  fittedStates (count_processed five_initialized) = fittedStates five_initialized
  /\ accessIndex (count_processed five_initialized) = accessIndex five_initialized
  /\ navigation
       (set_stepping
          (correct_stepping
             (updator (11, 5%Z) (telescope_bind 11 true (stepping (at_surface 11))).1).2
             (telescope_bind 11 true (stepping (at_surface 11))).2)
          (at_surface 11))
     = navigation (at_surface 11)
  /\ engine
       (set_stepping
          (correct_stepping
             (updator (11, 5%Z) (telescope_bind 11 true (stepping (at_surface 11))).1).2
             (telescope_bind 11 true (stepping (at_surface 11))).2)
          (at_surface 11))
     = engine (at_surface 11)
  /\ (processedStates (count_processed five_initialized)
      = processedStates five_initialized
      \/ processedStates (count_processed five_initialized)
         = size_t_incr (processedStates five_initialized)).
Proof.
  apply (operator_call_frozen (actor_of five_states_reject3) (at_surface 11)
           five_initialized).
  - vm_compute. discriminate.
  - vm_compute. reflexivity.
Defined.

Lemma propagate_from_fresh_witness :
  exists state' result',
    propagate (actor_of five_states) (Some 11 :: [Some 99; Some 12]) state0
              fresh_result
    = Some (state', result')
    /\ fittedStates result' = trackStates (actor_of five_states)
    /\ accessIndex result'
       = accessIndex (initialize (actor_of five_states) state0 fresh_result).2
    /\ externalSurfaces (navigation state')
       = externalSurfaces
           (navigation (initialize (actor_of five_states) state0 fresh_result).1)
    /\ processedStates result'
       = size_t_add 0
           (hits (accessIndex (initialize (actor_of five_states) state0 fresh_result).2)
                 (Some 11 :: [Some 99; Some 12])).
Proof.
  apply (propagate_from_fresh (actor_of five_states) (Some 11) [Some 99; Some 12]
           state0).
  vm_compute. discriminate.
Defined.

Lemma propagate_all_reported_once_witness :
  exists state' result',
    propagate (actor_of three_states) [Some 11; Some 12; Some 13] state0 fresh_result
    = Some (state', result')
    /\ processedStates result' = N.of_nat (length three_states)
    /\ all_handled (actor_of three_states) result' = true.
Proof.
  apply (propagate_all_reported_once (T := types) updator state0 three_states
           [Some 11; Some 12; Some 13]).
  - exists [3; 1; 2]. split.
    + apply (bool_decide_unpack _). vm_compute. exact I.
    + repeat constructor.
  - symmetry. exact (Permutation_cons_append [Some 11; Some 12] (Some 13)).
  - vm_compute. reflexivity.
Defined.


Lemma update_accepted_witness :
  exists state' result',
    update (actor_of five_states) 11 (at_surface 11) five_initialized
    = Some (state', result')
    /\ processedStates result' = size_t_incr (processedStates five_initialized)
    /\ stepping state'
       = set_cov 5%Z
           (stepping_update (11, 5, 0)%Z (normalized (1, 0, 0)%Z) (norm (1, 0, 0)%Z)
              (bind 11 true (stepping (at_surface 11))).2)
    /\ cov (stepping state') = 5%Z
    /\ navigation state' = navigation (at_surface 11)
    /\ engine state' = engine (at_surface 11)
    /\ fittedStates result' = fittedStates five_initialized
    /\ accessIndex result' = accessIndex five_initialized.
Proof.
  apply (update_accepted (actor_of five_states) 11 (at_surface 11)
           five_initialized 0 (11, 5%Z)
           (@mkParameters types (11, 5, 0)%Z (1, 0, 0)%Z 5%Z));
    vm_compute; reflexivity.
Defined.

Lemma operator_call_no_surface_witness :
  exists state',
    operator_call (actor_of five_states_reject3) (report None state0) five_initialized
    = Some (state', five_initialized)
    /\ stepping state' = stepping (report None state0)
    /\ engine state' = engine (report None state0)
    /\ (fittedStates five_initialized <> [] -> state' = report None state0).
Proof.
  apply (operator_call_no_surface (actor_of five_states_reject3)
           (report None state0) five_initialized).
  - left. vm_compute. discriminate.
  - reflexivity.
Defined.

End TelescopeWholeRuns.
